(** * nest-req-ctx: request-scoped context storage over AsyncLocalStorage

    A shallow embedding of the context store engine
    ([RequestContextService]), the adapter factory and the three scope
    initializers (Express middleware, guard, interceptor), together with
    the properties the specification states about them.

    JavaScript values are an inductive type; the [Map] objects created by
    [run] live in a heap of finite maps and are addressed by reference, so
    that the store seen by a callback is the very object it mutated
    earlier; every method is a computation in a state-and-exception monad
    over that heap. *)

From Stdlib Require Import ZArith String Ascii List Bool Lia.
From stdpp Require Import gmap strings list fin_maps.
Import ListNotations.
Local Open Scope string_scope.
Set Warnings "-register-all".

(** ** JavaScript values *)

Module JS.

(** The two adapter singletons exported by the adapter files
    ([expressAdapter], [fastifyAdapter]). *)
Inductive RequestAdapter := expressAdapter | fastifyAdapter.

(** Values that reach the context store: primitives, the adapter
    singletons, and objects given by their own enumerable properties
    (first binding of a key wins).  Numbers are integers here. *)
Inductive value :=
| VUndefined
| VNull
| VBool (b : bool)
| VNum (n : Z)
| VStr (s : string)
| VAdapter (a : RequestAdapter)
| VObject (props : list (string * value)).

(** What a [throw] can carry.  The two [Error]s the service raises are
    kept apart by constructor instead of by message text:
    - [NoActiveContext]: 'No active request context. Ensure
      middleware/guard/interceptor is configured.'
    - [NotInitialized]: 'RequestContextService not initialized. ...'
    [TypeError] is the engine's error for a property read on [null] or
    [undefined]; [Thrown v] is any value thrown by user code. *)
Inductive exn :=
| NoActiveContext
| NotInitialized
| TypeError
| Thrown (payload : value).

Inductive result (A : Type) :=
| Ok (a : A)
| Throw (e : exn).
Arguments Ok {A} a.
Arguments Throw {A} e.

Definition is_undefined (v : value) : bool :=
  match v with VUndefined => true | _ => false end.

Definition is_null (v : value) : bool :=
  match v with VNull => true | _ => false end.

(** ToBoolean. *)
Definition truthy (v : value) : bool :=
  match v with
  | VUndefined | VNull => false
  | VBool b => b
  | VNum n => negb (Z.eqb n 0)
  | VStr s => negb (String.eqb s "")
  | VAdapter _ | VObject _ => true
  end.

(** Own-property lookup in an object's property list. *)
Fixpoint own (props : list (string * value)) (k : string) : option value :=
  match props with
  | [] => None
  | (k', v) :: rest => if String.eqb k' k then Some v else own rest k
  end.

Section PropertyAccess.
(** What a property read yields when the receiver has no own property
    of that name: the prototype chain for objects, the wrapper's
    properties for primitives.  It is left open; accessors that throw
    and proxies are outside the model. *)
Variable inherited : value -> string -> value.

(** [v[k]]: a [TypeError] on [null] and [undefined], the own property
    when there is one, the inherited one otherwise. *)
Definition get_prop (v : value) (k : string) : result value :=
  match v with
  | VUndefined | VNull => Throw TypeError
  | VObject props =>
      match own props k with
      | Some x => Ok x
      | None => Ok (inherited v k)
      end
  | _ => Ok (inherited v k)
  end.
End PropertyAccess.

(** [s.split(sep)] for a one-character separator: never empty, and the
    empty string splits into one empty part. *)
Fixpoint split (sep : ascii) (s : string) : list string :=
  match s with
  | EmptyString => [""]
  | String c rest =>
      if Ascii.eqb c sep then "" :: split sep rest
      else match split sep rest with
           | [] => [String c ""]
           | w :: ws => String c w :: ws
           end
  end.

(** [s.startsWith(p)]. *)
Definition startsWith (s p : string) : bool := String.prefix p s.

(** [s.includes(c)] for a one-character needle. *)
Fixpoint includes (s : string) (c : ascii) : bool :=
  match s with
  | EmptyString => false
  | String c' rest => Ascii.eqb c' c || includes rest c
  end.

End JS.
Export JS.

(** ** The state-and-exception monad of the service *)

(** A [Map<string, any>] is a finite map; [maps] is the heap of the
    [Map]s allocated so far and a reference is an index into it.
    [store] is what [asyncLocalStorage.getStore()] returns at the current
    point of execution, [instance] the class-level static
    [RequestContextService.instance] (a reference to the service object
    that ran [onModuleInit], when one did). *)
Record state := mkState {
  maps : list (gmap string value);
  store : option nat;
  instance : option nat;
}.

Definition M (A : Type) : Type := state -> result A * state.

Definition ret {A} (a : A) : M A := fun st => (Ok a, st).

Definition throw {A} (e : exn) : M A := fun st => (Throw e, st).

Definition bind {A B} (c : M A) (k : A -> M B) : M B :=
  fun st =>
    match c st with
    | (Ok a, st') => k a st'
    | (Throw e, st') => (Throw e, st')
    end.

Definition lift {A} (r : result A) : M A := fun st => (r, st).

Declare Scope js_scope.
Delimit Scope js_scope with js.
Notation "'let*' x ':=' c 'in' k" := (bind c (fun x => k))
  (at level 10, x name, c at level 100, k at level 200) : js_scope.
Notation "c ';;' k" := (bind c (fun _ => k))
  (at level 100, k at level 200, right associativity) : js_scope.
Local Open Scope js_scope.

Definition with_store (s : option nat) (st : state) : state :=
  {| maps := maps st; store := s; instance := instance st |}.

Definition with_maps (ms : list (gmap string value)) (st : state) : state :=
  {| maps := ms; store := store st; instance := instance st |}.

Definition with_instance (i : option nat) (st : state) : state :=
  {| maps := maps st; store := store st; instance := i |}.

(** The process at start-up: no [Map] allocated, no ambient store, the
    static not assigned. *)
Definition initial : state :=
  {| maps := []; store := None; instance := None |}.

(** *** Map objects on the heap *)

Definition deref (ref : nat) (st : state) : gmap string value :=
  default ∅ (maps st !! ref).

(** [store.set(key, value)] *)
Definition Map_set (ref : nat) (key : string) (v : value) : M unit :=
  fun st => (Ok tt, with_maps (<[ref := <[key := v]> (deref ref st)]> (maps st)) st).

(** [store.get(key)] *)
Definition Map_get (ref : nat) (key : string) : M value :=
  fun st => (Ok (default VUndefined (deref ref st !! key)), st).

(** [store.has(key)] *)
Definition Map_has (ref : nat) (key : string) : M bool :=
  fun st => (Ok (bool_decide (is_Some (deref ref st !! key))), st).

(** [store.delete(key)]: tells whether the key was there. *)
Definition Map_delete (ref : nat) (key : string) : M bool :=
  fun st =>
    (Ok (bool_decide (is_Some (deref ref st !! key))),
     with_maps (<[ref := base.delete key (deref ref st)]> (maps st)) st).

(** [store.clear()] *)
Definition Map_clear (ref : nat) : M unit :=
  fun st => (Ok tt, with_maps (<[ref := ∅]> (maps st)) st).

(** *** AsyncLocalStorage, from its documented contract *)

Module AsyncLocalStorage.

(** [asyncLocalStorage.getStore()] *)
Definition getStore : M (option nat) := fun st => (Ok (store st), st).

(** [asyncLocalStorage.run(store, callback)]: the store is ambient for
    the callback, and the store that was ambient before is ambient
    again afterwards, also when the callback throws. *)
Definition run {A} (ref : nat) (callback : M A) : M A :=
  fun st =>
    let '(r, st') := callback (with_store (Some ref) st) in
    (r, with_store (store st) st').

End AsyncLocalStorage.

(** ** The adapter factory (adapters/adapter.factory.ts) *)

Module Adapters.

(** [type AdapterType = 'express' | 'fastify' | 'auto'] *)
Inductive AdapterType := express | fastify | auto.

Definition AdapterType_string (t : AdapterType) : string :=
  match t with
  | express => "express"
  | fastify => "fastify"
  | auto => "auto"
  end.

Section WithPrototypes.
Variable inherited : value -> string -> value.

(** [request && typeof request.raw !== 'undefined'
     && typeof request.server !== 'undefined'], evaluated left to
    right with short-circuit. *)
Definition detectAdapterType (request : value) : result AdapterType :=
  if truthy request then
    match get_prop inherited request "raw" with
    | Throw e => Throw e
    | Ok raw =>
        if negb (is_undefined raw) then
          match get_prop inherited request "server" with
          | Throw e => Throw e
          | Ok server =>
              if negb (is_undefined server) then Ok fastify else Ok express
          end
        else Ok express
    end
  else Ok express.

Definition getAdapter (type : AdapterType) (request : value)
  : result RequestAdapter :=
  match type with
  | auto =>
      if truthy request then
        match detectAdapterType request with
        | Throw e => Throw e
        | Ok fastify => Ok fastifyAdapter
        | Ok _ => Ok expressAdapter
        end
      else Ok expressAdapter
  | fastify => Ok fastifyAdapter
  | express => Ok expressAdapter
  end.
End WithPrototypes.

End Adapters.
Export Adapters.

(** ** The adapters (adapters/express.adapter.ts, adapters/fastify.adapter.ts)

    The two classes have the same methods; they differ in [getPath]
    only.  Each method reads a property of the request. *)

Module AdapterMethods.

Section WithEngine.
Variable inherited : value -> string -> value.
(** [String.prototype.toLowerCase], left open. *)
Variable toLowerCase : string -> string.

Definition getHeaders (a : RequestAdapter) (request : value) : result value :=
  get_prop inherited request "headers".

(** [request.headers[key.toLowerCase()]] *)
Definition getHeader (a : RequestAdapter) (request : value) (key : string)
  : result value :=
  match get_prop inherited request "headers" with
  | Throw e => Throw e
  | Ok headers => get_prop inherited headers (toLowerCase key)
  end.

Definition getPath (a : RequestAdapter) (request : value) : result value :=
  match a with
  | expressAdapter => get_prop inherited request "path"
  | fastifyAdapter => get_prop inherited request "url"
  end.

Definition getMethod (a : RequestAdapter) (request : value) : result value :=
  get_prop inherited request "method".

Definition getBody (a : RequestAdapter) (request : value) : result value :=
  get_prop inherited request "body".

Definition getQuery (a : RequestAdapter) (request : value) : result value :=
  get_prop inherited request "query".

Definition getParams (a : RequestAdapter) (request : value) : result value :=
  get_prop inherited request "params".

Definition getProperty (a : RequestAdapter) (request : value) (key : string)
  : result value :=
  get_prop inherited request key.

Definition getRawRequest (a : RequestAdapter) (request : value) : value :=
  request.
End WithEngine.

End AdapterMethods.

(** ** The context store engine (request-context.service.ts) *)

Module RequestContextService.

Definition REQUEST : string := "__request__".
Definition ADAPTER : string := "__adapter__".
Definition ADAPTER_TYPE : string := "__adapter_type__".

(** The three reserved keys of [INTERNAL_KEYS]. *)
Definition INTERNAL_KEYS : list string := [REQUEST; ADAPTER; ADAPTER_TYPE].

(** [onModuleInit()] of the service object [this]. *)
Definition onModuleInit (this : nat) : M unit :=
  fun st => (Ok tt, with_instance (Some this) st).

(** [static getInstance()] *)
Definition getInstance : M nat :=
  fun st =>
    match instance st with
    | None => (Throw NotInitialized, st)
    | Some this => (Ok this, st)
    end.

(** [static hasInstance()] *)
Definition hasInstance : M bool :=
  fun st => (Ok (bool_decide (is_Some (instance st))), st).

Definition getStore : M (option nat) := AsyncLocalStorage.getStore.

(** [new Map()] followed by one [store.set] per entry of
    [initialStore], in the order of [Object.entries]. *)
Definition seed (initialStore : option (list (string * value)))
  : gmap string value :=
  match initialStore with
  | None => ∅
  | Some entries => fold_left (fun m kv => <[kv.1 := kv.2]> m) entries ∅
  end.

(** Allocation of the seeded [Map]: its reference is the next free
    index of the heap. *)
Definition new_Map (initialStore : option (list (string * value))) : M nat :=
  fun st =>
    (Ok (length (maps st)), with_maps (maps st ++ [seed initialStore]) st).

Definition run {A} (callback : M A)
  (initialStore : option (list (string * value))) : M A :=
  let* ref := new_Map initialStore in
  AsyncLocalStorage.run ref callback.

(** [runAsync] has the body of [run]; its callback is the whole
    asynchronous computation, suspensions included. *)
Definition runAsync {A} (callback : M A)
  (initialStore : option (list (string * value))) : M A :=
  let* ref := new_Map initialStore in
  AsyncLocalStorage.run ref callback.

Definition isActive : M bool :=
  let* s := getStore in
  ret (bool_decide (s ≠ None)).

Definition set (key : string) (v : value) : M unit :=
  let* s := getStore in
  match s with
  | None => throw NoActiveContext
  | Some ref => Map_set ref key v
  end.

Definition get (key : string) : M value :=
  let* s := getStore in
  match s with
  | None => ret VUndefined
  | Some ref => Map_get ref key
  end.

Definition has (key : string) : M bool :=
  let* s := getStore in
  match s with
  | None => ret false
  | Some ref => Map_has ref key
  end.

Definition delete (key : string) : M bool :=
  let* s := getStore in
  match s with
  | None => ret false
  | Some ref => Map_delete ref key
  end.

Definition clear : M unit :=
  let* s := getStore in
  match s with
  | None => ret tt
  | Some ref => Map_clear ref
  end.

(** The body of [store.forEach] in [getAll]. *)
Definition copy_entry (key : string) (v : value)
  (result : gmap string value) : gmap string value :=
  if startsWith key "__" then result else <[key := v]> result.

Definition getAll : M (gmap string value) :=
  let* s := getStore in
  match s with
  | None => ret ∅
  | Some ref => fun st => (Ok (map_fold copy_entry ∅ (deref ref st)), st)
  end.

Section WithPrototypes.
Variable inherited : value -> string -> value.

(** The [for] loop of [getByPath] over [parts[1..]]: it stops at the
    end of the path or as soon as [current] is [undefined] or
    [null], and yields [current]. *)
Fixpoint walk (parts : list string) (current : value) : result value :=
  match parts with
  | [] => Ok current
  | part :: rest =>
      if is_undefined current || is_null current then Ok current
      else
        match get_prop inherited current part with
        | Throw e => Throw e
        | Ok next => walk rest next
        end
  end.

Definition getByPath (path : string) : M value :=
  if String.eqb path "" then ret VUndefined
  else
    match split "." path with
    | [] => ret VUndefined
    | first :: rest =>
        let* current := get first in
        lift (walk rest current)
    end.

Definition setRequest (request : value) (adapterType : AdapterType)
  : M unit :=
  set REQUEST request ;;
  set ADAPTER_TYPE (VStr (AdapterType_string adapterType)) ;;
  let* adapter := lift (Adapters.getAdapter inherited adapterType request) in
  set ADAPTER (VAdapter adapter).
End WithPrototypes.

Definition getRequest : M value := get REQUEST.

Definition getAdapter : M value := get ADAPTER.

Definition getAdapterType : M value := get ADAPTER_TYPE.

Section WithEngine.
Variable inherited : value -> string -> value.
Variable toLowerCase : string -> string.

(** A method call [adapter.m(...)] on what [getAdapter()] returned: the
    adapter singletons have the methods; on any other value the call is
    a [TypeError]. *)
Definition call_adapter {A} (adapter : value)
  (m : RequestAdapter -> result A) : M A :=
  match adapter with
  | VAdapter a => lift (m a)
  | _ => throw TypeError
  end.

Definition getHeader (key : string) : M value :=
  let* adapter := getAdapter in
  let* request := getRequest in
  if negb (truthy adapter) || negb (truthy request) then ret VUndefined
  else
    call_adapter adapter
      (fun a => AdapterMethods.getHeader inherited toLowerCase a request key).

(** The empty object [{}] when there is no adapter or no request. *)
Definition getHeaders : M value :=
  let* adapter := getAdapter in
  let* request := getRequest in
  if negb (truthy adapter) || negb (truthy request) then ret (VObject [])
  else call_adapter adapter (fun a => AdapterMethods.getHeaders inherited a request).

Definition getRequestProperty (key : string) : M value :=
  let* adapter := getAdapter in
  let* request := getRequest in
  if negb (truthy adapter) || negb (truthy request) then ret VUndefined
  else if includes key "." then
    match split "." key with
    | [] => ret VUndefined
    | first :: rest =>
        let* current :=
          call_adapter adapter
            (fun a => AdapterMethods.getProperty inherited a request first) in
        lift (walk inherited rest current)
    end
  else
    call_adapter adapter
      (fun a => AdapterMethods.getProperty inherited a request key).
End WithEngine.

End RequestContextService.

(** ** The path resolver of the decorators (request-key.decorator.ts) *)

Module Decorators.

Section WithPrototypes.
Variable inherited : value -> string -> value.

(** The [for ... of] loop of [resolvePath]: [undefined] as soon as
    [current] is [null] or [undefined] with a part left to read. *)
Fixpoint resolve_parts (parts : list string) (current : value)
  : result value :=
  match parts with
  | [] => Ok current
  | part :: rest =>
      if is_null current || is_undefined current then Ok VUndefined
      else
        match get_prop inherited current part with
        | Throw e => Throw e
        | Ok next => resolve_parts rest next
        end
  end.

Definition resolvePath (obj : value) (path : string) : result value :=
  if negb (truthy obj) || String.eqb path "" then Ok VUndefined
  else resolve_parts (split "." path) obj.
End WithPrototypes.

End Decorators.

(** ** The scope initializers *)

Module Initializers.
Import RequestContextService.

(** The promise a [setup] hook may return.  [Settling rest]: [rest] is
    what the hook still does asynchronously, in the scope it was called
    in; the promise is fulfilled when [rest] ends and rejected with [e]
    when it throws [e].  [Forever]: the promise never settles. *)
Inductive promise :=
| Settling (rest : M unit)
| Forever.

(** [setup?: (contextService, request) => void | Promise<void>]: the
    synchronous part of the hook either throws or returns, and returns
    [None] for [void] or the promise. *)
Definition hook : Type := value -> M (option promise).

(** The fields of [RequestContextModuleOptions] the initializers read;
    each of them is optional.  [setRequest_opt] is the field
    [setRequest]. *)
Record RequestContextModuleOptions := {
  adapter : option AdapterType;
  setRequest_opt : option bool;
  setup : option hook;
}.

(** [this.options?.setRequest !== false] *)
Definition setRequest_enabled (options : option RequestContextModuleOptions)
  : bool :=
  match options with
  | Some o =>
      match setRequest_opt o with
      | Some false => false
      | _ => true
      end
  | None => true
  end.

(** [this.options?.adapter] *)
Definition adapter_of (options : option RequestContextModuleOptions)
  : option AdapterType :=
  match options with
  | Some o => adapter o
  | None => None
  end.

(** [this.options?.setup] *)
Definition setup_of (options : option RequestContextModuleOptions)
  : option hook :=
  match options with
  | Some o => setup o
  | None => None
  end.

(** How a promise ends. *)
Inductive settlement (A : Type) :=
| Fulfilled (a : A)
| Rejected (e : exn)
| Pending.
Arguments Fulfilled {A} a.
Arguments Rejected {A} e.
Arguments Pending {A}.

(** What an observable delivers to its subscriber. *)
Inductive notification :=
| OnNext (v : value)
| OnError (e : exn)
| OnComplete.

(** [await x] inside a [try] block of an async function: [Some (Ok tt)]
    when execution resumes after the [await], [Some (Throw e)] when the
    [await] throws [e], [None] when it never resumes. *)
Definition await (x : option promise) (st : state)
  : option (result unit) * state :=
  match x with
  | None => (Some (Ok tt), st)
  | Some Forever => (None, st)
  | Some (Settling rest) =>
      match rest st with
      | (r, st') => (Some r, st')
      end
  end.

Section WithPrototypes.
Variable inherited : value -> string -> value.

(** *** ExpressContextMiddleware.use

    The result is the list of calls made on [next], each with its
    error argument; [Throw e] is [use] throwing [e] to its caller.
    The reactions registered with [then] and [catch] run after [use]
    has returned, in the scope of the [run]; they are accounted for
    here, at the point where they are registered.  [next] itself
    returns without throwing. *)
Definition use (options : option RequestContextModuleOptions)
  (req : value) : M (list (option exn)) :=
  run
    ((if setRequest_enabled options
      then setRequest inherited req (default express (adapter_of options))
      else ret tt) ;;
     match setup_of options with
     | Some f =>
         let* result := f req in
         match result with
         | Some (Settling rest) =>
             fun st =>
               match rest st with
               | (Ok _, st') => (Ok [None], st')
               | (Throw err, st') => (Ok [Some err], st')
               end
         | Some Forever => ret []
         | None => ret [None]
         end
     | None => ret [None]
     end)
    None.

(** The adapter type chosen by the guard and by the interceptor. *)
Definition resolve_adapterType (options : option RequestContextModuleOptions)
  (request : value) : M AdapterType :=
  match adapter_of options with
  | Some auto | None => lift (detectAdapterType inherited request)
  | Some t => ret t
  end.

(** The statements of the [try] block shared by the guard and the
    interceptor, up to and including [await this.options.setup(...)]:
    [None] when the [await] never resumes. *)
Definition initialize (options : option RequestContextModuleOptions)
  (request : value) (st : state) : option (result unit) * state :=
  match
    (let* adapterType := resolve_adapterType options request in
     (if setRequest_enabled options
      then setRequest inherited request adapterType
      else ret tt) ;;
     match setup_of options with
     | Some f => f request
     | None => ret None
     end) st
  with
  | (Ok x, st') => await x st'
  | (Throw e, st') => (Some (Throw e), st')
  end.

(** *** RequestContextGuard.canActivate

    An async function: the result is the settlement of the promise it
    returns. *)
Definition canActivate (options : option RequestContextModuleOptions)
  (request : value) (st : state) : settlement bool * state :=
  match getStore st with
  | (Ok (Some existingStore), st0) => (Fulfilled true, st0)
  | (_, st0) =>
      match
        run (fun s =>
               match initialize options request s with
               | (Some (Ok _), s') => (Ok (Fulfilled true), s')
               | (Some (Throw error), s') => (Ok (Rejected error), s')
               | (None, s') => (Ok Pending, s')
               end) None st0
      with
      | (Ok p, st') => (p, st')
      | (Throw e, st') => (Rejected e, st')
      end
  end.

(** *** RequestContextInterceptor.intercept

    [handle] is [next.handle()] subscribed to: the notifications of
    the rest of the pipeline, or a synchronous throw.  The result is
    what the subscriber of the returned observable receives. *)
Definition intercept (options : option RequestContextModuleOptions)
  (request : value) (handle : M (list notification))
  : M (list notification) :=
  run (fun s =>
         match initialize options request s with
         | (Some (Ok _), s') =>
             match handle s' with
             | (Ok forwarded, s'') => (Ok forwarded, s'')
             | (Throw error, s'') => (Ok [OnError error], s'')
             end
         | (Some (Throw error), s') => (Ok [OnError error], s')
         | (None, s') => (Ok [], s')
         end) None.
End WithPrototypes.

(** *** The middlewares with the rest of the pipeline

    [next] is the callback the framework passes to [use]: called with no
    argument it runs the rest of the pipeline, called with an error it
    runs the error handling; either may throw. *)

(** A reaction whose failure nobody handles: an unhandled rejection,
    which the caller of [use] never sees. *)
Definition unhandled (c : M unit) : M unit :=
  fun st => (Ok tt, (c st).2).

(** [result.then(() => next()).catch((err) => next(err))], for a promise
    that settles: the reactions run in the scope they were registered
    in. *)
Definition then_next_catch_next (rest : M unit) (next : option exn -> M unit)
  : M unit :=
  fun st =>
    match rest st with
    | (Ok _, st') =>
        match next None st' with
        | (Ok _, st'') => (Ok tt, st'')
        | (Throw err, st'') => unhandled (next (Some err)) st''
        end
    | (Throw err, st') => unhandled (next (Some err)) st'
    end.

Module ExpressContextMiddleware.
Section WithPrototypes.
Variable inherited : value -> string -> value.

Definition use (options : option RequestContextModuleOptions) (req : value)
  (next : option exn -> M unit) : M unit :=
  run
    ((if setRequest_enabled options
      then setRequest inherited req (default express (adapter_of options))
      else ret tt) ;;
     match setup_of options with
     | Some f =>
         let* result := f req in
         match result with
         | Some (Settling rest) => then_next_catch_next rest next
         | Some Forever => ret tt
         | None => next None
         end
     | None => next None
     end)
    None.
End WithPrototypes.
End ExpressContextMiddleware.

Module FastifyContextMiddleware.
Section WithPrototypes.
Variable inherited : value -> string -> value.

Definition use (options : option RequestContextModuleOptions) (req : value)
  (next : option exn -> M unit) : M unit :=
  run
    ((if setRequest_enabled options
      then setRequest inherited req (default auto (adapter_of options))
      else ret tt) ;;
     match setup_of options with
     | Some f =>
         let* result := f req in
         match result with
         | Some (Settling rest) => then_next_catch_next rest next
         | Some Forever => ret tt
         | None => next None
         end
     | None => next None
     end)
    None.
End WithPrototypes.
End FastifyContextMiddleware.

Section WithPrototypes.
Variable inherited : value -> string -> value.

(** *** createFastifyContextHook

    The hook function it returns, applied to a request: the result is
    the settlement of the promise. *)
Definition createFastifyContextHook
  (options : option RequestContextModuleOptions) (req : value) (st : state)
  : settlement unit * state :=
  match
    run (fun s =>
           match
             ((if setRequest_enabled options
               then setRequest inherited req
                      (default auto (adapter_of options))
               else ret tt) ;;
              match setup_of options with
              | Some f => f req
              | None => ret None
              end) s
           with
           | (Ok x, s') =>
               match await x s' with
               | (Some (Ok _), s'') => (Ok (Fulfilled tt), s'')
               | (Some (Throw error), s'') => (Ok (Rejected error), s'')
               | (None, s'') => (Ok Pending, s'')
               end
           | (Throw error, s') => (Ok (Rejected error), s')
           end) None st
  with
  | (Ok p, st') => (p, st')
  | (Throw e, st') => (Rejected e, st')
  end.
End WithPrototypes.

End Initializers.

(** ** The parameter decorators (decorators/*.decorator.ts)

    Each decorator is the function given to [createParamDecorator];
    [ctx_request] is what [ctx.switchToHttp().getRequest()] returns. *)

Module ParamDecorators.
Import RequestContextService.

(** [try { c } catch { handler }] *)
Definition try_catch {A} (c : M A) (handler : M A) : M A :=
  fun st =>
    match c st with
    | (Ok a, st') => (Ok a, st')
    | (Throw _, st') => handler st'
    end.

(** [if (headerName)]: the name when it is given and not empty. *)
Definition given (headerName : option string) : option string :=
  match headerName with
  | Some name => if String.eqb name "" then None else Some name
  | None => None
  end.

Section WithEngine.
Variable inherited : value -> string -> value.
Variable toLowerCase : string -> string.

(** The [try] block of [Req]: [Some request] when it returns. *)
Definition Req_from_service : M (option value) :=
  let* initialized := hasInstance in
  if initialized then
    getInstance ;;
    let* request := getRequest in
    if truthy request then ret (Some request) else ret None
  else ret None.

Definition Req (ctx_request : value) : M value :=
  let* found := try_catch Req_from_service (ret None) in
  match found with
  | Some request => ret request
  | None => ret ctx_request
  end.

(** The [try] block of [Headers]. *)
Definition Headers_from_service (headerName : option string)
  : M (option value) :=
  let* initialized := hasInstance in
  if initialized then
    getInstance ;;
    match given headerName with
    | Some name =>
        let* v := getHeader inherited toLowerCase name in ret (Some v)
    | None => let* v := getHeaders inherited in ret (Some v)
    end
  else ret None.

(** [request.headers?.[headerName.toLowerCase()]] and
    [request.headers || {}]. *)
Definition Headers_from_context (headerName : option string)
  (request : value) : result value :=
  match get_prop inherited request "headers" with
  | Throw e => Throw e
  | Ok headers =>
      match given headerName with
      | Some name =>
          if is_undefined headers || is_null headers then Ok VUndefined
          else get_prop inherited headers (toLowerCase name)
      | None => if truthy headers then Ok headers else Ok (VObject [])
      end
  end.

Definition Headers (headerName : option string) (ctx_request : value)
  : M value :=
  let* found := try_catch (Headers_from_service headerName) (ret None) in
  match found with
  | Some v => ret v
  | None => lift (Headers_from_context headerName ctx_request)
  end.

(** The [try] block of [RequestKey]: the value of the variable
    [request] after it. *)
Definition RequestKey_from_service : M value :=
  let* initialized := hasInstance in
  if initialized then getInstance ;; getRequest else ret VUndefined.

Definition RequestKey (key : string) (ctx_request : value) : M value :=
  let* request := try_catch RequestKey_from_service (ret VUndefined) in
  let request := if truthy request then request else ctx_request in
  if truthy request then lift (Decorators.resolvePath inherited request key)
  else ret VUndefined.

Definition ContextValue (path : string) : M value :=
  try_catch
    (let* initialized := hasInstance in
     if initialized then getInstance ;; getByPath inherited path
     else ret VUndefined)
    (ret VUndefined).
End WithEngine.

End ParamDecorators.

(** ** Callbacks with suspension points, interleaved by the event loop *)

Module EventLoop.
Import RequestContextService.

(** What a callback does, one service call at a time; [Await] is a
    suspension point ([await delay(10)], an I/O completion, a timer). *)
Inductive action :=
| CallSet (key : string) (v : value)
| CallGet (key : string)
| CallHas (key : string)
| CallDelete (key : string)
| CallClear
| Await.

(** What a callback learns from its calls. *)
Inductive observation :=
| Got (key : string) (v : value)
| Had (key : string) (b : bool)
| Deleted (key : string) (b : bool)
| Raised (e : exn).

Definition perform (a : action) : M (option observation) :=
  match a with
  | CallSet key v => set key v ;; ret None
  | CallGet key => let* v := get key in ret (Some (Got key v))
  | CallHas key => let* b := has key in ret (Some (Had key b))
  | CallDelete key => let* b := delete key in ret (Some (Deleted key b))
  | CallClear => clear ;; ret None
  | Await => ret None
  end.

Definition cons_opt {A} (o : option A) (l : list A) : list A :=
  match o with
  | Some x => x :: l
  | None => l
  end.

(** A callback runs until its next suspension point or its end; the
    result is what it observed on the way and what is left to do after
    the suspension.  An uncaught exception ends the callback. *)
Fixpoint segment (acts : list action) (st : state)
  : list observation * list action * state :=
  match acts with
  | [] => ([], [], st)
  | Await :: rest => ([], rest, st)
  | a :: rest =>
      match perform a st with
      | (Ok o, st') =>
          let '(os, k, st'') := segment rest st' in
          (cons_opt o os, k, st'')
      | (Throw e, st') => ([Raised e], [], st')
      end
  end.

(** A callback in flight.  [context] is the store that was ambient when
    the callback suspended: its continuation runs with that store
    ambient again.  [pending] is the continuation and [seen] what the
    callback observed so far.  [callback] and [initialStore] record the
    arguments of the [run] call that started it. *)
Record task := {
  callback : list action;
  initialStore : option (list (string * value));
  context : option nat;
  pending : list action;
  seen : list observation;
}.

(** The function passed to [run]: the callback up to its first
    suspension, where the ambient store is captured. *)
Definition start (cb : list action)
  : M (list observation * list action * option nat) :=
  fun st =>
    let '(os, k, st') := segment cb st in
    (Ok (os, k, store st'), st').

(** The event loop resuming a continuation that was scheduled with
    [ctx] ambient: [ctx] is ambient while it runs and the previous
    store afterwards. *)
Definition resume (ctx : option nat) (k : list action) (st : state)
  : list observation * list action * state :=
  let '(os, k', st') := segment k (with_store ctx st) in
  (os, k', with_store (store st) st').

(** What the event loop does next: a new [run] (or [runAsync], when
    [async] is set) of a callback, or the continuation of task [i]. *)
Inductive event :=
| Spawn (async : bool) (cb : list action)
    (init : option (list (string * value)))
| Resume (i : nat).

Definition world : Type := state * list task.

Definition step (w : world) (ev : event) : world :=
  let '(st, tasks) := w in
  match ev with
  | Spawn async cb init =>
      match (if async then runAsync (start cb) init
             else run (start cb) init) st with
      | (Ok (os, k, ctx), st') =>
          (st', (tasks ++ [{| callback := cb; initialStore := init;
                              context := ctx; pending := k;
                              seen := os |}])%list)
      | (Throw _, st') => (st', tasks)
      end
  | Resume i =>
      match tasks !! i with
      | Some t =>
          let '(os, k, st') := resume (context t) (pending t) st in
          (st', <[i := {| callback := callback t;
                          initialStore := initialStore t;
                          context := context t;
                          pending := k;
                          seen := (seen t ++ os)%list |}]> tasks)
      | None => w
      end
  end.

Definition exec (evs : list event) (w : world) : world :=
  fold_left step evs w.

(** *** A callback on its own

    The reference the interleaved execution is compared with: the same
    actions applied to a private map, with nothing else running. *)
Definition alone_step (a : action) (m : gmap string value)
  : option observation * gmap string value :=
  match a with
  | CallSet key v => (None, <[key := v]> m)
  | CallGet key => (Some (Got key (default VUndefined (m !! key))), m)
  | CallHas key => (Some (Had key (bool_decide (is_Some (m !! key)))), m)
  | CallDelete key =>
      (Some (Deleted key (bool_decide (is_Some (m !! key)))),
       base.delete key m)
  | CallClear => (None, ∅)
  | Await => (None, m)
  end.

Fixpoint alone (acts : list action) (m : gmap string value)
  : list observation * gmap string value :=
  match acts with
  | [] => ([], m)
  | a :: rest =>
      let '(o, m') := alone_step a m in
      let '(os, m'') := alone rest m' in
      (cons_opt o os, m'')
  end.

(** The actions that can change what [CallGet key] returns. *)
Definition touches (key : string) (a : action) : bool :=
  match a with
  | CallSet k _ | CallDelete k => String.eqb k key
  | CallClear => true
  | _ => false
  end.

End EventLoop.


(** * Properties *)

Import RequestContextService Initializers EventLoop.

(** ** Vocabulary of the properties *)

(** A field of the request is defined when reading it yields something
    other than [undefined]. *)
Definition field_defined (inherited : value -> string -> value)
  (request : value) (field : string) : Prop :=
  exists x, get_prop inherited request field = Ok x /\ x <> VUndefined.

(** The structural marker of a Fastify request. *)
Definition fastify_marker (inherited : value -> string -> value)
  (request : value) : Prop :=
  field_defined inherited request "raw" /\
  field_defined inherited request "server".

(** A scope as the middleware leaves it for an Express request, and
    options whose hook throws when called. *)
Definition scope_opened_by_middleware : state :=
  {| maps := [ {[ REQUEST := VObject [("url", VStr "/")];
                  ADAPTER_TYPE := VStr "express";
                  ADAPTER := VAdapter expressAdapter ]} ];
     store := Some 0;
     instance := Some 0 |}.

Definition options_with_throwing_hook : RequestContextModuleOptions :=
  {| adapter := None;
     setRequest_opt := None;
     setup := Some (fun _ => throw (Thrown (VStr "setup failed"))) |}.

(** [ref] is the ambient scope: the store [getStore()] returns, an
    allocated [Map]. *)
Definition ambient (st : state) (ref : nat) : Prop :=
  store st = Some ref /\ ref < length (maps st).

(** A scope holding one user entry, with no request stored yet. *)
Definition scope_with_user : state :=
  {| maps := [ {[ "user" := VStr "ann" ]} ];
     store := Some 0;
     instance := None |}.

(** The value a path designates from [current] on, read segment by
    segment with plain property access: there is one when no segment has
    to be read from [null] or [undefined]. *)
Fixpoint designated (inherited : value -> string -> value)
  (current : value) (parts : list string) : option value :=
  match parts with
  | [] => Some current
  | part :: rest =>
      match get_prop inherited current part with
      | Ok next => designated inherited next rest
      | Throw _ => None
      end
  end.

Definition nullish (v : value) : Prop := v = VUndefined \/ v = VNull.

(** The scopes of the specification's example: [a = {b: {c: 5}}], no
    [a] at all, and [a = {b: null}]. *)
Definition scope_a_b_c : state :=
  {| maps := [ {[ "a" := VObject [("b", VObject [("c", VNum 5)])] ]} ];
     store := Some 0;
     instance := None |}.

Definition scope_without_a : state :=
  {| maps := [ ∅ ]; store := Some 0; instance := None |}.

Definition scope_a_b_null : state :=
  {| maps := [ {[ "a" := VObject [("b", VNull)] ]} ];
     store := Some 0;
     instance := None |}.

(** Called on [request] in the state [s], the hook throws [e]
    synchronously. *)
Definition throws (f : hook) (request : value) (s : state) (e : exn) : Prop :=
  (f request s).1 = Throw e.

(** Called on [request] in the state [s], the hook returns a promise
    that rejects with [e]. *)
Definition rejects (f : hook) (request : value) (s : state) (e : exn)
  : Prop :=
  exists rest,
    (f request s).1 = Ok (Some (Settling rest)) /\
    (rest (f request s).2).1 = Throw e.


(** The state in which the callback of [run(callback)] starts. *)
Definition entered (st : state) : state :=
  with_store (Some (length (maps st))) (with_maps (maps st ++ [∅]) st).

(** The state in which the Express middleware, called in [st], calls the
    setup hook: inside the new scope, after the request was stored when
    that is enabled. *)
Definition hook_state_of_use (inherited : value -> string -> value)
  (options : option RequestContextModuleOptions) (req : value) (st : state)
  : state :=
  ((if setRequest_enabled options
    then setRequest inherited req (default express (adapter_of options))
    else ret tt) (entered st)).2.

(** The state in which the guard and the interceptor, called in [st],
    call the setup hook. *)
Definition hook_state_of_initialize (inherited : value -> string -> value)
  (options : option RequestContextModuleOptions) (request : value)
  (st : state) : state :=
  ((let* adapterType := resolve_adapterType inherited options request in
    (if setRequest_enabled options
     then setRequest inherited request adapterType
     else ret tt)) (entered st)).2.

(** Hooks that store a value in the scope before they fail. *)
Definition options_with_hook_throwing_after_set
  : RequestContextModuleOptions :=
  {| adapter := None;
     setRequest_opt := None;
     setup :=
       Some (fun _ =>
               set "requestId" (VStr "abc-123") ;;
               throw (Thrown (VStr "setup failed"))) |}.


(** Everything but the [Map] at [ref] is as it was. *)
Definition framed (s s' : state) (ref : nat) : Prop :=
  length (maps s') = length (maps s) /\
  forall r, r <> ref -> maps s' !! r = maps s !! r.

(** What the event loop maintains for a callback in flight: its context
    is an allocated [Map], what it has executed so far is a prefix of its
    callback, and both what it has seen and what its [Map] holds are
    what that prefix yields on its own, from its own initial values. *)
Definition tracked (st : state) (t : task) : Prop :=
  exists ref done,
    context t = Some ref /\ ref < length (maps st) /\
    callback t = (done ++ pending t)%list /\
    alone done (seed (initialStore t)) = (seen t, deref ref st).

Definition isolated (w : world) : Prop :=
  (forall i t, w.2 !! i = Some t -> tracked w.1 t) /\
  (forall i j a b, i <> j -> w.2 !! i = Some a -> w.2 !! j = Some b ->
                   context a <> context b).

(** The actions that store a value under [key]. *)
Definition sets (key : string) (a : action) : bool :=
  match a with
  | CallSet k _ => String.eqb k key
  | _ => false
  end.

(** The scenario of the specification: [runAsync(async () => { await
    delay(10); set('x', 1); get('x') })], a sibling [run] started during
    the delay that reads ['x'] before and after a suspension of its own,
    then the first callback resumed, then the sibling. *)
Definition delayed_set_and_sibling : list event :=
  [ Spawn true [Await; CallSet "x" (VNum 1); CallGet "x"] None;
    Spawn false [CallGet "x"; Await; CallGet "x"] None;
    Resume 0;
    Resume 1 ].

Definition delayed_setter : task :=
  {| callback := [Await; CallSet "x" (VNum 1); CallGet "x"];
     initialStore := None;
     context := Some 0;
     pending := [];
     seen := [Got "x" (VNum 1)] |}.

Definition sibling_reader : task :=
  {| callback := [CallGet "x"; Await; CallGet "x"];
     initialStore := None;
     context := Some 1;
     pending := [];
     seen := [Got "x" VUndefined; Got "x" VUndefined] |}.

(** A scope in which a key was set to [undefined]. *)
Definition scope_with_undefined_tenant : state :=
  {| maps := [ {[ "tenant" := VUndefined; "user" := VStr "ann" ]} ];
     store := Some 0;
     instance := None |}.

(** A hook that stores [compute request] under [key], at once or, when
    [later] is set, in the promise it returns. *)
Definition storing_hook (later : bool) (key : string)
  (compute : value -> value) : hook :=
  fun request =>
    if later then ret (Some (Settling (set key (compute request))))
    else (set key (compute request) ;; ret None).

(** What the subscriber of the interceptor receives from a handler
    started in [s], and the state the caller of [intercept], who had the
    store of [st] ambient, is left with. *)
Definition forwarded (handle : M (list notification)) (st s : state)
  : result (list notification) * state :=
  match handle s with
  | (Ok notifications, s') => (Ok notifications, with_store (store st) s')
  | (Throw e, s') => (Ok [OnError e], with_store (store st) s')
  end.

(** The hook of the specification's scenario:
    [ctx.set('requestId', req.headers['x-request-id'] ?? 'generated')]
    for a request given by its own properties. *)
Definition request_id_of (request : value) : value :=
  match request with
  | VObject props =>
      match own props "headers" with
      | Some (VObject headers) =>
          match own headers "x-request-id" with
          | Some VUndefined | Some VNull | None => VStr "generated"
          | Some id => id
          end
      | _ => VStr "generated"
      end
  | _ => VStr "generated"
  end.

Definition request_with_id : value :=
  VObject [("headers", VObject [("x-request-id", VStr "abc-123")])].

Definition request_without_id : value :=
  VObject [("headers", VObject [("accept", VStr "*/*")])].

(** A handler that reports the request id and the request it finds in
    the context. *)
Definition reporting_handler : M (list notification) :=
  let* id := get "requestId" in
  let* request := getRequest in
  ret [OnNext id; OnNext request; OnComplete].

(** The hook leaves ambient the store it found ambient, as every method
    of the service does, in the part it runs at once and in the part it
    runs in its promise. *)
Definition keeps_store (f : hook) (request : value) : Prop :=
  forall s,
    store (f request s).2 = store s /\
    forall rest, (f request s).1 = Ok (Some (Settling rest)) ->
                 forall t, store (rest t).2 = store t.

(** The rest of the pipeline with the guard in front of it: [next()]
    first runs the guard and goes on with [next] when the guard fulfils
    its promise with [true], and with [denied] otherwise; [next(err)]
    goes to the error handling directly. *)
Definition guarded (inherited : value -> string -> value)
  (options : option RequestContextModuleOptions) (request : value)
  (denied : settlement bool -> M unit) (next : option exn -> M unit)
  : option exn -> M unit :=
  fun err s =>
    match err with
    | Some _ => next err s
    | None =>
        match canActivate inherited options request s with
        | (Fulfilled true, s') => next None s'
        | (settled, s') => denied settled s'
        end
    end.

Definition options_storing_request_id : RequestContextModuleOptions :=
  {| adapter := Some auto;
     setRequest_opt := None;
     setup := Some (storing_hook true "requestId" request_id_of) |}.

(** A request with the structural marker of Fastify. *)
Definition fastify_request : value :=
  VObject [("raw", VObject []); ("server", VObject []);
           ("url", VStr "/users")].

(** The state in which the hook function made by
    [createFastifyContextHook], called in [st], calls the setup hook. *)
Definition hook_state_of_fastify_hook (inherited : value -> string -> value)
  (options : option RequestContextModuleOptions) (req : value) (st : state)
  : state :=
  ((if setRequest_enabled options
    then setRequest inherited req (default auto (adapter_of options))
    else ret tt) (entered st)).2.

(** The request the service holds for the decorators: the one stored in
    the ambient scope, provided the singleton exists. *)
Definition stored_request (st : state) : value :=
  match instance st, store st with
  | Some _, Some ref => default VUndefined (deref ref st !! REQUEST)
  | _, _ => VUndefined
  end.

(** The stored request when it is truthy, the request of the execution
    context otherwise. *)
Definition chosen_request (st : state) (ctx_request : value) : value :=
  if truthy (stored_request st) then stored_request st else ctx_request.

(** ** Proof steps shared by the properties *)

(** Unfold a call of the service down to the test of [getStore()]. *)
Ltac open_call :=
  unfold set, get, has, delete, clear, getAll, bind, getStore,
    AsyncLocalStorage.getStore.

(** Settle a call of the service once the ambient store is known. *)
Ltac call_with Hstore := open_call; rewrite Hstore; reflexivity.

(** The parts of a path, as [split] yields them. *)
Example split_examples :
  split "." "a.b.c" = ["a"; "b"; "c"] /\
  split "." "user" = ["user"] /\
  split "." "a." = ["a"; ""] /\
  split "." "a..b" = ["a"; ""; "b"] /\
  split "." "" = [""].
Proof. repeat split. Qed.

(** ** Outside any scope *)

Lemma set_no_scope (st : state) (key : string) (v : value) :
  store st = None -> set key v st = (Throw NoActiveContext, st).
Proof.
  intros Hnone. call_with Hnone.
Qed.

Lemma get_no_scope (st : state) (key : string) :
  store st = None -> get key st = (Ok VUndefined, st).
Proof.
  intros Hnone. call_with Hnone.
Qed.

Lemma step_store (w : world) (ev : event) : store (step w ev).1 = store w.1.
Proof.
  destruct w as [st tasks]. destruct ev as [async cb init | i]; simpl.
  - assert (Hsame : (if async then runAsync (start cb) init
                     else run (start cb) init) st
                    = run (start cb) init st) by (destruct async; reflexivity).
    rewrite Hsame. unfold run, bind, new_Map, AsyncLocalStorage.run, start.
    simpl.
    match goal with
    | |- context [segment cb ?s] => destruct (segment cb s) as [[os k] st']
    end.
    reflexivity.
  - destruct (tasks !! i) as [t |]; [| reflexivity].
    unfold resume.
    match goal with
    | |- context [segment ?k ?s] => destruct (segment k s) as [[os k'] st']
    end.
    reflexivity.
Qed.

(** Between two callbacks, at the top level of the event loop, no scope
    is ambient. *)
Lemma exec_store (evs : list event) (w : world) :
  store (exec evs w).1 = store w.1.
Proof.
  revert w. induction evs as [| ev evs IH]; intros w; [reflexivity |].
  simpl. unfold exec in IH. rewrite IH. apply step_store.
Qed.

(** C2. When no scope is ambient, [set key v] raises the
    NoActiveContext error and changes nothing, while [get key] returns
    [undefined] without raising.  That is the situation of any code
    running outside every [run] and [runAsync] extent, whatever
    callbacks ran or are suspended by then. *)
Theorem set_raises_get_is_absent_without_scope (key : string) (v : value) :
  (forall st,
     store st = None ->
     set key v st = (Throw NoActiveContext, st) /\
     get key st = (Ok VUndefined, st)) /\
  (forall evs,
     let top := (exec evs (initial, [])).1 in
     set key v top = (Throw NoActiveContext, top) /\
     get key top = (Ok VUndefined, top)).
Proof.
  assert (Hboth : forall st, store st = None ->
                    set key v st = (Throw NoActiveContext, st) /\
                    get key st = (Ok VUndefined, st)).
  { intros st Hnone. split.
    - apply set_no_scope, Hnone.
    - apply get_no_scope, Hnone. }
  split; [exact Hboth |].
  intros evs top. apply Hboth. unfold top. rewrite exec_store. reflexivity.
Qed.

Lemma set_raises_get_is_absent_at_start :
  store initial = None /\
  set "k" (VNum 1) initial = (Throw NoActiveContext, initial) /\
  get "k" initial = (Ok VUndefined, initial).
Proof.
  split; [reflexivity |].
  destruct (set_raises_get_is_absent_without_scope "k" (VNum 1))
    as [Hany _].
  apply (Hany initial). reflexivity.
Defined.

(** C10. When no scope is ambient, [setRequest] raises the
    NoActiveContext error of its first [set] (the one of the reserved
    request key) and leaves the state as it was, whatever the request and
    the adapter type. *)
Theorem setRequest_raises_without_scope
  (inherited : value -> string -> value) (st : state) (request : value)
  (adapterType : AdapterType) :
  store st = None ->
  setRequest inherited request adapterType st = (Throw NoActiveContext, st) /\
  set REQUEST request st = (Throw NoActiveContext, st).
Proof.
  intros Hnone.
  pose proof (set_no_scope st REQUEST request Hnone) as Hset.
  split; [| exact Hset].
  unfold setRequest. unfold bind at 1. rewrite Hset. reflexivity.
Qed.

Lemma setRequest_raises_at_start :
  store initial = None /\
  setRequest (fun _ _ => VUndefined) (VObject [("url", VStr "/")]) auto initial
  = (Throw NoActiveContext, initial) /\
  set REQUEST (VObject [("url", VStr "/")]) initial
  = (Throw NoActiveContext, initial).
Proof.
  split; [reflexivity |].
  apply (setRequest_raises_without_scope (fun _ _ => VUndefined) initial
           (VObject [("url", VStr "/")]) auto).
  reflexivity.
Defined.

(** ** The process-wide singleton *)

Lemma segment_instance (acts : list action) (st : state) :
  instance (segment acts st).2 = instance st.
Proof.
  revert st. induction acts as [| a rest IH]; intros st; [reflexivity |].
  destruct a as [key v | key | key | key | |]; simpl; open_call;
    unfold Map_set, Map_get, Map_has, Map_delete, Map_clear, ret, throw;
    simpl;
    try (destruct (store st) as [ref |]; simpl);
    try reflexivity;
    match goal with
    | |- context [segment rest ?s] =>
        specialize (IH s); destruct (segment rest s) as [[os k] st'];
        simpl in *; exact IH
    end.
Qed.

Lemma step_instance (w : world) (ev : event) :
  instance (step w ev).1 = instance w.1.
Proof.
  destruct w as [st tasks]. destruct ev as [async cb init | i]; simpl.
  - assert (Hsame : (if async then runAsync (start cb) init
                     else run (start cb) init) st
                    = run (start cb) init st) by (destruct async; reflexivity).
    rewrite Hsame. unfold run, bind, new_Map, AsyncLocalStorage.run, start.
    simpl.
    match goal with
    | |- context [segment cb ?s] =>
        pose proof (segment_instance cb s) as Hseg;
        destruct (segment cb s) as [[os k] st']
    end.
    exact Hseg.
  - destruct (tasks !! i) as [t |]; [| reflexivity].
    unfold resume.
    match goal with
    | |- context [segment ?k ?s] =>
        pose proof (segment_instance k s) as Hseg;
        destruct (segment k s) as [[os k'] st']
    end.
    exact Hseg.
Qed.

Lemma exec_instance (evs : list event) (w : world) :
  instance (exec evs w).1 = instance w.1.
Proof.
  revert w. induction evs as [| ev evs IH]; intros w; [reflexivity |].
  simpl. unfold exec in IH. rewrite IH. apply step_instance.
Qed.

(** C7. [getInstance] fails with the NotInitialized error as long as
    [onModuleInit] has not run, whatever scopes were opened and whatever
    the callbacks did in them since start-up; once [onModuleInit] has run
    for the service object [this] it returns [this], and keeps doing so
    whatever runs afterwards. *)
Theorem getInstance_before_and_after_onModuleInit :
  (forall evs : list event,
     let st := (exec evs (initial, [])).1 in
     getInstance st = (Throw NotInitialized, st)) /\
  (forall (this : nat) (st : state) (tasks : list task) (evs : list event),
     let st1 := (onModuleInit this st).2 in
     let st2 := (exec evs (st1, tasks)).1 in
     (onModuleInit this st).1 = Ok tt /\
     getInstance st1 = (Ok this, st1) /\
     getInstance st2 = (Ok this, st2)).
Proof.
  split.
  - intros evs st. unfold getInstance.
    assert (Hinst : instance st = None)
      by (unfold st; rewrite exec_instance; reflexivity).
    rewrite Hinst. reflexivity.
  - intros this st tasks evs st1 st2.
    split; [reflexivity |]. split; [reflexivity |].
    unfold getInstance.
    assert (Hinst : instance st2 = Some this)
      by (unfold st2; rewrite exec_instance; reflexivity).
    rewrite Hinst. reflexivity.
Qed.

(** ** Adapter detection *)

Lemma is_undefined_false (x : value) :
  x <> VUndefined -> is_undefined x = false.
Proof. destruct x; intros H; try reflexivity. contradiction. Qed.

Lemma is_undefined_true (x : value) :
  is_undefined x = true -> x = VUndefined.
Proof. destruct x; intros H; try discriminate. reflexivity. Qed.

Lemma detectAdapterType_total (inherited : value -> string -> value)
  (request : value) :
  detectAdapterType inherited request = Ok express \/
  detectAdapterType inherited request = Ok fastify.
Proof.
  unfold detectAdapterType.
  destruct request as [| | b | n | s | a | props]; simpl;
    repeat match goal with
      | |- context [if ?c then _ else _] => destruct c; simpl
      | |- context [match own ?p ?k with _ => _ end] =>
          destruct (own p k); simpl
      end; auto.
Qed.

(** C8. On a request object whose [raw] and [server] fields are both
    defined [detectAdapterType] returns 'fastify'; on any request without
    that marker, [null] and [undefined] included, it returns
    'express'. *)
Theorem detectAdapterType_marker (inherited : value -> string -> value) :
  (forall props,
     fastify_marker inherited (VObject props) ->
     detectAdapterType inherited (VObject props) = Ok fastify) /\
  (forall request,
     ~ fastify_marker inherited request ->
     detectAdapterType inherited request = Ok express) /\
  detectAdapterType inherited VNull = Ok express /\
  detectAdapterType inherited VUndefined = Ok express.
Proof.
  split; [| split; [| split; reflexivity]].
  - intros props [[raw [Hraw Hr]] [server [Hserver Hs]]].
    unfold detectAdapterType. simpl truthy. cbv iota.
    rewrite Hraw, Hserver.
    rewrite (is_undefined_false raw Hr), (is_undefined_false server Hs).
    reflexivity.
  - intros request Hno. unfold detectAdapterType.
    destruct (truthy request) eqn:Ht; [| reflexivity].
    assert (Hread : forall field, exists x,
               get_prop inherited request field = Ok x).
    { intros field. destruct request; simpl in *; try discriminate; eauto.
      destruct (own props field); eauto. }
    destruct (Hread "raw") as [raw Hraw].
    destruct (Hread "server") as [server Hserver].
    rewrite Hraw, Hserver.
    destruct (is_undefined raw) eqn:Hr; [reflexivity |].
    destruct (is_undefined server) eqn:Hs; [reflexivity |].
    exfalso. apply Hno. split.
    + exists raw. split; [exact Hraw |]. intros ->. discriminate.
    + exists server. split; [exact Hserver |]. intros ->. discriminate.
Qed.

Lemma detectAdapterType_marker_on_requests :
  (fastify_marker (fun _ _ => VUndefined)
     (VObject [("raw", VObject []); ("server", VObject [])]) /\
   detectAdapterType (fun _ _ => VUndefined)
     (VObject [("raw", VObject []); ("server", VObject [])]) = Ok fastify) /\
  ((~ fastify_marker (fun _ _ => VUndefined)
        (VObject [("raw", VObject []); ("url", VStr "/")])) /\
   detectAdapterType (fun _ _ => VUndefined)
     (VObject [("raw", VObject []); ("url", VStr "/")]) = Ok express).
Proof.
  assert (Hyes : fastify_marker (fun _ _ => VUndefined)
            (VObject [("raw", VObject []); ("server", VObject [])])).
  { split; exists (VObject []); split;
      solve [reflexivity | discriminate]. }
  assert (Hno : ~ fastify_marker (fun _ _ => VUndefined)
            (VObject [("raw", VObject []); ("url", VStr "/")])).
  { intros [_ [x [Hx Hdef]]]. simpl in Hx. congruence. }
  destruct (detectAdapterType_marker (fun _ _ => VUndefined))
    as [Hfastify [Hexpress _]].
  split; split.
  - exact Hyes.
  - exact (Hfastify _ Hyes).
  - exact Hno.
  - exact (Hexpress _ Hno).
Defined.

(** ** The guard as a safety net *)

Lemma isActive_store (st : state) :
  (isActive st).1 = Ok true -> exists ref, store st = Some ref.
Proof.
  unfold isActive, bind, getStore, AsyncLocalStorage.getStore, ret.
  destruct (store st) as [ref |]; [eauto |].
  cbn. intros H. discriminate H.
Qed.

(** C5. When a scope is already ambient ([isActive()] is true), the
    guard fulfils its promise with [true] and leaves the whole state as it
    found it: no entry of the scope is written, no new scope is opened,
    and the result does not depend on the options, so the setup hook is
    not called. *)
Theorem canActivate_skips_when_scope_is_active
  (inherited : value -> string -> value)
  (options : option RequestContextModuleOptions) (request : value)
  (st : state) :
  (isActive st).1 = Ok true ->
  canActivate inherited options request st = (Fulfilled true, st).
Proof.
  intros Hactive. destruct (isActive_store st Hactive) as [ref Href].
  unfold canActivate, getStore, AsyncLocalStorage.getStore.
  rewrite Href. reflexivity.
Qed.

Lemma canActivate_skips_after_middleware :
  (isActive scope_opened_by_middleware).1 = Ok true /\
  canActivate (fun _ _ => VUndefined) (Some options_with_throwing_hook)
    (VObject [("url", VStr "/")]) scope_opened_by_middleware
  = (Fulfilled true, scope_opened_by_middleware).
Proof.
  split; [reflexivity |].
  apply (canActivate_skips_when_scope_is_active (fun _ _ => VUndefined)
           (Some options_with_throwing_hook) (VObject [("url", VStr "/")])
           scope_opened_by_middleware).
  reflexivity.
Defined.

(** ** Bulk enumeration *)

Lemma copy_entries_lookup (m : gmap string value) (k : string) :
  map_fold copy_entry ∅ m !! k
  = if startsWith k "__" then None else m !! k.
Proof.
  revert k.
  apply (map_fold_weak_ind
           (fun (r m : gmap string value) =>
              forall k, r !! k = if startsWith k "__" then None else m !! k)).
  - intros k. rewrite !lookup_empty. destruct (startsWith k "__"); reflexivity.
  - intros i x m' r Hfresh IH k. unfold copy_entry.
    destruct (decide (i = k)) as [-> | Hne].
    + destruct (startsWith k "__") eqn:Hk.
      * rewrite IH, Hk. reflexivity.
      * rewrite !lookup_insert_eq. reflexivity.
    + destruct (startsWith i "__").
      * rewrite IH. rewrite lookup_insert_ne by exact Hne. reflexivity.
      * rewrite !lookup_insert_ne by exact Hne. apply IH.
Qed.

Lemma getAll_in_scope (st : state) (ref : nat) :
  store st = Some ref ->
  getAll st = (Ok (map_fold copy_entry ∅ (deref ref st)), st).
Proof.
  intros Href. call_with Href.
Qed.

Lemma internal_keys_prefixed (k : string) :
  In k INTERNAL_KEYS -> startsWith k "__" = true.
Proof.
  unfold INTERNAL_KEYS. simpl.
  intros [<- | [<- | [<- | []]]]; reflexivity.
Qed.

Lemma deref_update (st : state) (ref : nat) (m : gmap string value) :
  ref < length (maps st) ->
  deref ref (with_maps (<[ref := m]> (maps st)) st) = m.
Proof.
  intros Hlt. unfold deref, with_maps. simpl.
  rewrite list_lookup_insert_eq by exact Hlt. reflexivity.
Qed.

Lemma ambient_update (st : state) (ref r : nat) (m : gmap string value) :
  ambient st ref -> ambient (with_maps (<[r := m]> (maps st)) st) ref.
Proof.
  intros [Hs Hlt]. split; [exact Hs |]. simpl. rewrite length_insert.
  exact Hlt.
Qed.

Lemma set_in_scope (st : state) (ref : nat) (key : string) (v : value) :
  ambient st ref ->
  exists st',
    set key v st = (Ok tt, st') /\ ambient st' ref /\
    deref ref st' = <[key := v]> (deref ref st).
Proof.
  intros Hamb. pose proof Hamb as [Hs Hlt].
  exists (with_maps (<[ref := <[key := v]> (deref ref st)]> (maps st)) st).
  split; [| split].
  - call_with Hs.
  - apply ambient_update, Hamb.
  - apply deref_update, Hlt.
Qed.

Lemma get_in_scope (st : state) (ref : nat) (key : string) :
  store st = Some ref ->
  get key st = (Ok (default VUndefined (deref ref st !! key)), st).
Proof.
  intros Hs. call_with Hs.
Qed.

Lemma has_in_scope (st : state) (ref : nat) (key : string) :
  store st = Some ref ->
  has key st = (Ok (bool_decide (is_Some (deref ref st !! key))), st).
Proof.
  intros Hs. call_with Hs.
Qed.

Lemma getAdapter_total (inherited : value -> string -> value)
  (type : AdapterType) (request : value) :
  exists a, Adapters.getAdapter inherited type request = Ok a.
Proof.
  destruct type; simpl; eauto.
  destruct (truthy request); eauto.
  destruct (detectAdapterType_total inherited request) as [-> | ->]; eauto.
Qed.

Lemma setRequest_in_scope (inherited : value -> string -> value)
  (st : state) (ref : nat) (request : value) (adapterType : AdapterType) :
  ambient st ref ->
  exists st' a,
    setRequest inherited request adapterType st = (Ok tt, st') /\
    ambient st' ref /\
    Adapters.getAdapter inherited adapterType request = Ok a /\
    deref ref st'
    = <[ADAPTER := VAdapter a]>
        (<[ADAPTER_TYPE := VStr (AdapterType_string adapterType)]>
           (<[REQUEST := request]> (deref ref st))).
Proof.
  intros Hamb.
  destruct (set_in_scope st ref REQUEST request Hamb)
    as (st1 & Hset1 & Hamb1 & Hd1).
  destruct (set_in_scope st1 ref ADAPTER_TYPE
              (VStr (AdapterType_string adapterType)) Hamb1)
    as (st2 & Hset2 & Hamb2 & Hd2).
  destruct (getAdapter_total inherited adapterType request) as [a Ha].
  destruct (set_in_scope st2 ref ADAPTER (VAdapter a) Hamb2)
    as (st3 & Hset3 & Hamb3 & Hd3).
  exists st3, a. split; [| split; [exact Hamb3 | split; [exact Ha |]]].
  - unfold setRequest. unfold bind at 1. rewrite Hset1.
    unfold bind at 1. rewrite Hset2.
    unfold bind at 1. unfold lift at 1. rewrite Ha. exact Hset3.
  - rewrite Hd3, Hd2, Hd1. reflexivity.
Qed.

(** C6. With no ambient scope [getAll] returns the empty mapping.  With
    an ambient scope it returns, without touching the scope, a mapping
    each entry of which is an entry of the scope, which holds every
    entry of the scope whose key does not begin with '__', and which
    holds none of the three reserved keys; after [setRequest] has stored
    the request, the adapter type and the adapter under the reserved
    keys, [getAll] still holds none of them and reports the same
    user-visible entries as before. *)
Theorem getAll_excludes_internal_keys
  (inherited : value -> string -> value) (st : state) :
  (store st = None -> getAll st = (Ok ∅, st)) /\
  (forall ref, store st = Some ref ->
     exists all,
       getAll st = (Ok all, st) /\
       (forall k, In k INTERNAL_KEYS -> all !! k = None) /\
       (forall k v, all !! k = Some v -> deref ref st !! k = Some v) /\
       (forall k, startsWith k "__" = false -> all !! k = deref ref st !! k)) /\
  (forall ref request adapterType, ambient st ref ->
     exists st' all,
       setRequest inherited request adapterType st = (Ok tt, st') /\
       getRequest st' = (Ok request, st') /\
       getAdapterType st' = (Ok (VStr (AdapterType_string adapterType)), st') /\
       (exists a, RequestContextService.getAdapter st' = (Ok (VAdapter a), st')) /\
       getAll st' = (Ok all, st') /\
       (forall k, In k INTERNAL_KEYS -> all !! k = None) /\
       (forall k, startsWith k "__" = false -> all !! k = deref ref st !! k)).
Proof.
  split; [| split].
  - intros Hnone. call_with Hnone.
  - intros ref Href. exists (map_fold copy_entry ∅ (deref ref st)).
    split; [apply getAll_in_scope, Href |]. split; [| split].
    + intros k Hk. rewrite copy_entries_lookup.
      rewrite (internal_keys_prefixed k Hk). reflexivity.
    + intros k v. rewrite copy_entries_lookup.
      destruct (startsWith k "__"); [discriminate | trivial].
    + intros k Hk. rewrite copy_entries_lookup, Hk. reflexivity.
  - intros ref request adapterType Hamb.
    destruct (setRequest_in_scope inherited st ref request adapterType Hamb)
      as (st' & a & Hset & [Hs' Hlt'] & Ha & Hd).
    exists st', (map_fold copy_entry ∅ (deref ref st')).
    split; [exact Hset |].
    unfold getRequest, getAdapterType, RequestContextService.getAdapter.
    rewrite !(get_in_scope st' ref) by exact Hs'. rewrite Hd.
    split; [| split; [| split; [| split; [| split]]]].
    + rewrite lookup_insert_ne by discriminate.
      rewrite lookup_insert_ne by discriminate.
      rewrite lookup_insert_eq. reflexivity.
    + rewrite lookup_insert_ne by discriminate.
      rewrite lookup_insert_eq. reflexivity.
    + exists a. rewrite lookup_insert_eq. reflexivity.
    + rewrite <- Hd. apply getAll_in_scope, Hs'.
    + intros k Hk. rewrite copy_entries_lookup.
      rewrite (internal_keys_prefixed k Hk). reflexivity.
    + intros k Hk. rewrite copy_entries_lookup, Hk.
      assert (Hne : forall r, In r INTERNAL_KEYS -> r <> k).
      { intros r Hr ->. rewrite (internal_keys_prefixed k Hr) in Hk.
        discriminate. }
      rewrite !lookup_insert_ne; [reflexivity | | |];
        apply Hne; simpl; auto.
Qed.

Lemma getAll_after_setRequest_on_scope_with_user :
  (store initial = None /\ getAll initial = (Ok ∅, initial)) /\
  (store scope_with_user = Some 0 /\
   exists all,
     getAll scope_with_user = (Ok all, scope_with_user) /\
     all !! "user" = Some (VStr "ann")) /\
  (ambient scope_with_user 0 /\
   exists st' all,
     setRequest (fun _ _ => VUndefined) (VObject [("url", VStr "/")]) auto
       scope_with_user = (Ok tt, st') /\
     getRequest st' = (Ok (VObject [("url", VStr "/")]), st') /\
     getAll st' = (Ok all, st') /\
     all !! REQUEST = None /\ all !! ADAPTER = None /\
     all !! ADAPTER_TYPE = None /\
     all !! "user" = Some (VStr "ann")).
Proof.
  assert (Hamb : ambient scope_with_user 0)
    by (split; [reflexivity | simpl; lia]).
  destruct (getAll_excludes_internal_keys (fun _ _ => VUndefined) initial)
    as (Hempty & _ & _).
  destruct (getAll_excludes_internal_keys (fun _ _ => VUndefined)
              scope_with_user) as (_ & Hcopy & Hafter).
  split; [| split].
  - split; [reflexivity | exact (Hempty eq_refl)].
  - split; [reflexivity |].
    destruct (Hcopy 0 eq_refl) as (all & Hall & _ & _ & Huser).
    exists all. split; [exact Hall |].
    rewrite (Huser "user") by reflexivity. reflexivity.
  - split; [exact Hamb |].
    destruct (Hafter 0 (VObject [("url", VStr "/")]) auto Hamb)
      as (st' & all & Hset & Hreq & _ & _ & Hall & Hinternal & Huser).
    exists st', all.
    split; [exact Hset |]. split; [exact Hreq |]. split; [exact Hall |].
    split; [apply Hinternal; simpl; auto |].
    split; [apply Hinternal; simpl; auto |].
    split; [apply Hinternal; simpl; auto |].
    rewrite (Huser "user") by reflexivity. reflexivity.
Defined.

(** C9. In an ambient scope, a value stored by [set] under any key that
    begins with '__' (one of the three reserved keys or not) is returned
    by [get] and reported by [has], and is absent from the mapping
    [getAll] returns. *)
Theorem getAll_hides_every_double_underscore_key (st : state) (ref : nat)
  (key : string) (v : value) :
  ambient st ref ->
  startsWith key "__" = true ->
  exists st' all,
    set key v st = (Ok tt, st') /\
    get key st' = (Ok v, st') /\
    has key st' = (Ok true, st') /\
    getAll st' = (Ok all, st') /\
    all !! key = None.
Proof.
  intros Hamb Hkey.
  destruct (set_in_scope st ref key v Hamb) as (st' & Hset & [Hs' _] & Hd).
  exists st', (map_fold copy_entry ∅ (deref ref st')).
  split; [exact Hset |].
  assert (Hlook : deref ref st' !! key = Some v)
    by (rewrite Hd; apply lookup_insert_eq).
  rewrite (get_in_scope st' ref), (has_in_scope st' ref) by exact Hs'.
  rewrite Hlook.
  split; [reflexivity |]. split.
  - rewrite bool_decide_eq_true_2 by eauto. reflexivity.
  - split; [apply getAll_in_scope, Hs' |].
    rewrite copy_entries_lookup, Hkey. reflexivity.
Qed.

Lemma getAll_hides_user_key_myKey :
  ambient scope_with_user 0 /\
  startsWith "__myKey" "__" = true /\
  ~ In "__myKey" INTERNAL_KEYS /\
  exists st' all,
    set "__myKey" (VNum 7) scope_with_user = (Ok tt, st') /\
    get "__myKey" st' = (Ok (VNum 7), st') /\
    has "__myKey" st' = (Ok true, st') /\
    getAll st' = (Ok all, st') /\
    all !! "__myKey" = None.
Proof.
  assert (Hamb : ambient scope_with_user 0)
    by (split; [reflexivity | simpl; lia]).
  split; [exact Hamb |]. split; [reflexivity |]. split.
  - unfold INTERNAL_KEYS, REQUEST, ADAPTER, ADAPTER_TYPE. simpl.
    intros [H | [H | [H | []]]]; discriminate H.
  - apply (getAll_hides_every_double_underscore_key scope_with_user 0
             "__myKey" (VNum 7) Hamb).
    reflexivity.
Defined.

(** ** Path lookup *)

Lemma split_nonempty (sep : ascii) (s : string) : split sep s <> [].
Proof.
  destruct s as [| c rest]; simpl; [discriminate |].
  destruct (Ascii.eqb c sep); [discriminate |].
  destruct (split sep rest); discriminate.
Qed.

Lemma get_prop_nullish (inherited : value -> string -> value) (v : value)
  (k : string) :
  is_undefined v || is_null v = true ->
  get_prop inherited v k = Throw TypeError.
Proof. destruct v; simpl; intros H; try discriminate; reflexivity. Qed.

Lemma get_prop_defined (inherited : value -> string -> value) (v : value)
  (k : string) :
  is_undefined v || is_null v = false ->
  exists x, get_prop inherited v k = Ok x.
Proof.
  destruct v; simpl; intros H; try discriminate; eauto.
  destruct (own props k); eauto.
Qed.

Lemma walk_designated (inherited : value -> string -> value)
  (parts : list string) (current v : value) :
  designated inherited current parts = Some v ->
  walk inherited parts current = Ok v.
Proof.
  revert current. induction parts as [| part rest IH]; intros current; simpl.
  - intros H. congruence.
  - destruct (is_undefined current || is_null current) eqn:Hn.
    + rewrite (get_prop_nullish inherited current part Hn). discriminate.
    + destruct (get_prop inherited current part) as [next | e];
        [apply IH | discriminate].
Qed.

Lemma walk_not_designated (inherited : value -> string -> value)
  (parts : list string) (current : value) :
  designated inherited current parts = None ->
  exists v, walk inherited parts current = Ok v /\ nullish v.
Proof.
  revert current. induction parts as [| part rest IH]; intros current; simpl.
  - discriminate.
  - destruct (is_undefined current || is_null current) eqn:Hn.
    + intros _. exists current. split; [reflexivity |].
      destruct current; simpl in Hn; try discriminate;
        [left | right]; reflexivity.
    + destruct (get_prop_defined inherited current part Hn) as [next ->].
      apply IH.
Qed.

Lemma walk_never_throws (inherited : value -> string -> value)
  (parts : list string) (current : value) :
  exists v, walk inherited parts current = Ok v.
Proof.
  destruct (designated inherited current parts) as [v |] eqn:Hd.
  - exists v. apply walk_designated, Hd.
  - destruct (walk_not_designated inherited parts current Hd) as (v & Hv & _).
    eauto.
Qed.

Lemma get_total (key : string) (st : state) :
  exists v, get key st = (Ok v, st).
Proof.
  open_call. destruct (store st); simpl; eauto.
Qed.

(** [getByPath] never throws and never changes the state, whatever the
    path and whatever the scope holds. *)
Lemma getByPath_never_throws (inherited : value -> string -> value)
  (path : string) (st : state) :
  exists v, getByPath inherited path st = (Ok v, st).
Proof.
  unfold getByPath. destruct (String.eqb path ""); [eexists; reflexivity |].
  destruct (split "." path) as [| first rest]; [eexists; reflexivity |].
  unfold bind. destruct (get_total first st) as [current ->].
  destruct (walk_never_throws inherited rest current) as [v Hv].
  exists v. unfold lift. rewrite Hv. reflexivity.
Qed.

(** When the path designates a value (every intermediate exists),
    [getByPath] returns it; when it does not, [getByPath] returns the
    [null] or [undefined] it met. *)
Lemma getByPath_walks (inherited : value -> string -> value)
  (first : string) (rest : list string) (path : string) (st : state)
  (current : value) :
  path <> "" ->
  split "." path = first :: rest ->
  get first st = (Ok current, st) ->
  exists v,
    getByPath inherited path st = (Ok v, st) /\
    match designated inherited current rest with
    | Some x => v = x
    | None => nullish v
    end.
Proof.
  intros Hpath Hsplit Hget. unfold getByPath.
  destruct (String.eqb_spec path ""); [contradiction |].
  rewrite Hsplit. unfold bind. rewrite Hget. unfold lift.
  destruct (designated inherited current rest) as [x |] eqn:Hd.
  - exists x. rewrite (walk_designated inherited rest current x Hd). auto.
  - destruct (walk_not_designated inherited rest current Hd) as (v & -> & Hv).
    eauto.
Qed.

Lemma getByPath_example (inherited : value -> string -> value) :
  getByPath inherited "a.b.c" scope_a_b_c = (Ok (VNum 5), scope_a_b_c) /\
  getByPath inherited "a.b.c" scope_without_a
  = (Ok VUndefined, scope_without_a) /\
  getByPath inherited "" scope_a_b_c = (Ok VUndefined, scope_a_b_c).
Proof. split; [| split]; reflexivity. Qed.

(** C3, at the input where the code departs from it.  With
    [a = {b: null}] in the ambient scope, [getByPath('a.b.c')] does not
    throw, but what it returns is the [null] it met at [a.b], not
    [undefined]: the loop stops on a [null] intermediate and the function
    returns that intermediate.  The decorators' [resolvePath] walks the
    same object along the same parts and returns [undefined]. *)
Theorem getByPath_returns_null_intermediate
  (inherited : value -> string -> value) :
  getByPath inherited "a.b.c" scope_a_b_null = (Ok VNull, scope_a_b_null) /\
  VNull <> VUndefined /\
  Decorators.resolvePath inherited (VObject [("b", VNull)]) "b.c"
  = Ok VUndefined.
Proof. split; [reflexivity | split; [discriminate | reflexivity]]. Qed.

(** ** Failure of the setup hook *)

Lemma run_entered {A} (callback : M A) (st : state) :
  run callback None st
  = (let '(r, st') := callback (entered st) in (r, with_store (store st) st')).
Proof. reflexivity. Qed.

Lemma ambient_entered (st : state) : ambient (entered st) (length (maps st)).
Proof.
  split; [reflexivity |]. simpl. rewrite length_app. simpl. lia.
Qed.

Lemma resolve_adapterType_total (inherited : value -> string -> value)
  (options : option RequestContextModuleOptions) (request : value)
  (s : state) :
  exists t, resolve_adapterType inherited options request s = (Ok t, s).
Proof.
  unfold resolve_adapterType, lift, ret.
  destruct (adapter_of options) as [[| |] |]; eauto;
    destruct (detectAdapterType_total inherited request) as [-> | ->]; eauto.
Qed.

Lemma populate_state (inherited : value -> string -> value)
  (options : option RequestContextModuleOptions) (request : value)
  (adapterType : AdapterType) (s : state) (ref : nat) :
  ambient s ref ->
  exists s',
    (if setRequest_enabled options
     then setRequest inherited request adapterType
     else ret tt) s = (Ok tt, s') /\
    ambient s' ref /\
    (setRequest_enabled options = true -> getRequest s' = (Ok request, s')) /\
    (setRequest_enabled options = false -> s' = s).
Proof.
  intros Hamb. destruct (setRequest_enabled options).
  - destruct (setRequest_in_scope inherited s ref request adapterType Hamb)
      as (s' & a & Hset & Hamb' & _ & Hd).
    exists s'. split; [exact Hset |]. split; [exact Hamb' |].
    split; [| discriminate]. intros _. destruct Hamb' as [Hs' _].
    unfold getRequest. rewrite (get_in_scope s' ref REQUEST Hs'), Hd.
    rewrite lookup_insert_ne by discriminate.
    rewrite lookup_insert_ne by discriminate.
    rewrite lookup_insert_eq. reflexivity.
  - exists s. split; [reflexivity |]. split; [exact Hamb |].
    split; [discriminate | reflexivity].
Qed.


(** The guard and the interceptor reach the hook, in the state
    [hook_state_of_initialize]. *)
Lemma initialize_reaches_hook (inherited : value -> string -> value)
  (options : option RequestContextModuleOptions) (f : hook)
  (request : value) (st : state) :
  setup_of options = Some f ->
  initialize inherited options request (entered st)
  = match f request (hook_state_of_initialize inherited options request st)
    with
    | (Ok x, s') => await x s'
    | (Throw e, s') => (Some (Throw e), s')
    end.
Proof.
  intros Hsetup. unfold initialize, hook_state_of_initialize.
  unfold bind at 1 3.
  destruct (resolve_adapterType_total inherited options request (entered st))
    as [t ->].
  unfold bind at 1.
  destruct (populate_state inherited options request t (entered st) _
              (ambient_entered st)) as (s1 & -> & _).
  rewrite Hsetup. reflexivity.
Qed.


Lemma hook_state_populated (inherited : value -> string -> value)
  (options : option RequestContextModuleOptions) (request : value)
  (st : state) (s : state) :
  s = hook_state_of_use inherited options request st \/
  s = hook_state_of_initialize inherited options request st ->
  ambient s (length (maps st)) /\
  (setRequest_enabled options = true -> getRequest s = (Ok request, s)) /\
  (setRequest_enabled options = false -> s = entered st).
Proof.
  intros [-> | ->].
  - unfold hook_state_of_use.
    destruct (populate_state inherited options request
                (default express (adapter_of options)) (entered st) _
                (ambient_entered st)) as (s1 & -> & Hamb & Hreq & Hoff).
    simpl. auto.
  - unfold hook_state_of_initialize. unfold bind.
    destruct (resolve_adapterType_total inherited options request
                (entered st)) as [t ->].
    destruct (populate_state inherited options request t (entered st) _
                (ambient_entered st)) as (s1 & -> & Hamb & Hreq & Hoff).
    simpl. auto.
Qed.




(** ** Isolation of concurrent scopes *)

Lemma framed_refl (s : state) (ref : nat) : framed s s ref.
Proof. split; auto. Qed.

Lemma framed_trans (s1 s2 s3 : state) (ref : nat) :
  framed s1 s2 ref -> framed s2 s3 ref -> framed s1 s3 ref.
Proof.
  intros [Hl1 Hf1] [Hl2 Hf2]. split; [congruence |].
  intros r Hr. rewrite Hf2, Hf1 by exact Hr. reflexivity.
Qed.

Lemma framed_update (s : state) (ref : nat) (m : gmap string value) :
  framed s (with_maps (<[ref := m]> (maps s)) s) ref.
Proof.
  split; simpl; [apply length_insert |].
  intros r Hr. apply list_lookup_insert_ne. congruence.
Qed.

Lemma perform_in_scope (a : action) (s : state) (ref : nat) :
  ambient s ref ->
  exists s',
    perform a s = (Ok (alone_step a (deref ref s)).1, s') /\
    ambient s' ref /\ framed s s' ref /\
    deref ref s' = (alone_step a (deref ref s)).2.
Proof.
  intros Hamb. pose proof Hamb as [Hs Hlt].
  destruct a as [key v | key | key | key | |]; simpl; open_call;
    unfold Map_set, Map_get, Map_has, Map_delete, Map_clear, ret;
    rewrite ?Hs; simpl;
    eexists; (split; [reflexivity |]);
    first [ solve [ split; [exact Hamb |];
                    split; [apply framed_refl | reflexivity] ]
          | split; [apply ambient_update, Hamb |];
            split; [apply framed_update | apply deref_update, Hlt] ].
Qed.

Lemma segment_in_scope (acts : list action) (s : state) (ref : nat) :
  ambient s ref ->
  exists done,
    acts = (done ++ (segment acts s).1.2)%list /\
    ambient (segment acts s).2 ref /\
    framed s (segment acts s).2 ref /\
    alone done (deref ref s)
    = ((segment acts s).1.1, deref ref (segment acts s).2).
Proof.
  revert s. induction acts as [| a rest IH]; intros s Hamb.
  - exists []. simpl. split; [reflexivity |]. split; [exact Hamb |].
    split; [apply framed_refl | reflexivity].
  - destruct (perform_in_scope a s ref Hamb)
      as (s1 & Hperf & Hamb1 & Hfr1 & Hd1).
    destruct (IH s1 Hamb1) as (done & Hacts & Hamb2 & Hfr2 & Halone).
    assert (Hgo : a = Await \/
                  segment (a :: rest) s
                  = (cons_opt (alone_step a (deref ref s)).1
                       (segment rest s1).1.1,
                     (segment rest s1).1.2, (segment rest s1).2)).
    { destruct a; [right | right | right | right | right | left; reflexivity];
        simpl segment; simpl in Hperf; rewrite Hperf;
        destruct (segment rest s1) as [[os k] s2]; reflexivity. }
    destruct Hgo as [-> | Hseg].
    + exists [Await]. simpl. split; [reflexivity |]. split; [exact Hamb |].
      split; [apply framed_refl | reflexivity].
    + exists (a :: done). rewrite Hseg. simpl.
      split; [f_equal; exact Hacts |]. split; [exact Hamb2 |].
      split; [exact (framed_trans _ _ _ _ Hfr1 Hfr2) |].
      destruct (alone_step a (deref ref s)) as [o m1]. simpl in *.
      rewrite <- Hd1, Halone. reflexivity.
Qed.

Lemma alone_app (l1 l2 : list action) (m : gmap string value) :
  alone (l1 ++ l2) m
  = (((alone l1 m).1 ++ (alone l2 (alone l1 m).2).1)%list,
     (alone l2 (alone l1 m).2).2).
Proof.
  revert m. induction l1 as [| a l1 IH]; intros m; simpl.
  - destruct (alone l2 m). reflexivity.
  - destruct (alone_step a m) as [o m1]. rewrite IH.
    destruct (alone l1 m1) as [os1 m2]. simpl.
    destruct o; reflexivity.
Qed.

Lemma alone_untouched (key : string) (mid : list action)
  (m : gmap string value) :
  Forall (fun a => touches key a = false) mid ->
  (alone mid m).2 !! key = m !! key.
Proof.
  intros Hmid. revert m.
  induction Hmid as [| a mid Ha _ IH]; intros m; simpl; [reflexivity |].
  destruct (alone_step a m) as [o m1] eqn:Hstep.
  specialize (IH m1). destruct (alone mid m1) as [os m2]. simpl in *.
  rewrite IH.
  destruct a as [k v | k | k | k | |]; simpl in Hstep, Ha;
    inversion Hstep; subst; try reflexivity; try discriminate.
  - apply lookup_insert_ne. intros ->. rewrite String.eqb_refl in Ha.
    discriminate.
  - apply lookup_delete_ne. intros ->. rewrite String.eqb_refl in Ha.
    discriminate.
Qed.

(** On its own, a callback reads back what it set, as long as it did not
    set, delete or clear the key in between; suspensions in between do
    not matter. *)
Lemma alone_reads_own_write (pre mid post : list action) (key : string)
  (v : value) (m : gmap string value) :
  Forall (fun a => touches key a = false) mid ->
  (alone (pre ++ CallSet key v :: mid ++ CallGet key :: post) m).1
  = ((alone (pre ++ CallSet key v :: mid) m).1
     ++ Got key v
     :: (alone post (alone (pre ++ CallSet key v :: mid) m).2).1)%list.
Proof.
  intros Hmid.
  replace (pre ++ CallSet key v :: mid ++ CallGet key :: post)%list
    with ((pre ++ CallSet key v :: mid) ++ CallGet key :: post)%list
    by (rewrite <- app_assoc; reflexivity).
  rewrite (alone_app (pre ++ CallSet key v :: mid)). simpl. f_equal.
  assert (Hkey : (alone (pre ++ CallSet key v :: mid) m).2 !! key = Some v).
  { rewrite alone_app. simpl.
    destruct (alone mid (<[key := v]> (alone pre m).2)) as [os m2] eqn:Hm.
    simpl.
    pose proof (alone_untouched key mid (<[key := v]> (alone pre m).2) Hmid)
      as Hun.
    rewrite Hm in Hun. simpl in Hun. rewrite Hun. apply lookup_insert_eq. }
  destruct (alone post (alone (pre ++ CallSet key v :: mid) m).2)
    as [os m3].
  simpl. rewrite Hkey. reflexivity.
Qed.

Lemma runAsync_is_run {A} (callback : M A)
  (initialStore : option (list (string * value))) :
  runAsync callback initialStore = run callback initialStore.
Proof. reflexivity. Qed.

Lemma tracked_framed (st st' : state) (t : task) (ref : nat) :
  tracked st t -> context t <> Some ref -> framed st st' ref ->
  tracked st' t.
Proof.
  intros (r & done & Hctx & Hlt & Hcb & Halone) Hne [Hlen Hfr].
  exists r, done. split; [exact Hctx |]. split; [lia |].
  split; [exact Hcb |]. rewrite Halone. f_equal. unfold deref.
  rewrite Hfr; [reflexivity |]. congruence.
Qed.

Lemma spawn_isolated (st : state) (tasks : list task) (cb : list action)
  (init : option (list (string * value))) :
  isolated (st, tasks) -> isolated (step (st, tasks) (Spawn false cb init)).
Proof.
  intros [Htracked Hdistinct]. simpl in Htracked, Hdistinct.
  set (n := length (maps st)).
  set (s1 := with_store (Some n) (with_maps (maps st ++ [seed init]) st)).
  assert (Hamb1 : ambient s1 n).
  { split; [reflexivity |]. simpl. rewrite length_app. simpl. unfold n. lia. }
  assert (Hseed : deref n s1 = seed init).
  { unfold deref, s1. simpl. rewrite list_lookup_middle; reflexivity. }
  destruct (segment_in_scope cb s1 n Hamb1)
    as (done & Hcb & [Hs2 Hlt2] & [Hlen2 Hfr2] & Halone).
  assert (Hstep : step (st, tasks) (Spawn false cb init)
                  = (with_store (store st) (segment cb s1).2,
                     (tasks ++ [{| callback := cb; initialStore := init;
                                   context := Some n;
                                   pending := (segment cb s1).1.2;
                                   seen := (segment cb s1).1.1 |}])%list)).
  { simpl. unfold run, bind, new_Map, AsyncLocalStorage.run, start.
    fold n. fold s1. destruct (segment cb s1) as [[os k] s2]. simpl in *.
    rewrite Hs2. reflexivity. }
  rewrite Hstep. clear Hstep.
  assert (Hold : forall t, tracked st t ->
                 tracked (with_store (store st) (segment cb s1).2) t).
  { intros t (r & d & Hctx & Hlt & Hcbt & Hal).
    exists r, d. split; [exact Hctx |]. split.
    - simpl. rewrite Hlen2. simpl. rewrite length_app. simpl. lia.
    - split; [exact Hcbt |]. rewrite Hal. f_equal. unfold deref. simpl.
      rewrite Hfr2 by (unfold n; lia). simpl.
      rewrite lookup_app_l by exact Hlt. reflexivity. }
  split; simpl.
  - intros i t Hi. apply lookup_app_Some in Hi as [Hi | [_ Hi]].
    + apply Hold. exact (Htracked i t Hi).
    + apply list_lookup_singleton_Some in Hi as [_ <-].
      exists n, done. simpl. split; [reflexivity |]. split; [exact Hlt2 |].
      split; [exact Hcb |]. rewrite <- Hseed. exact Halone.
  - intros i j a b Hij Ha Hb.
    apply lookup_app_Some in Ha as [Ha | [Hia Ha]];
      apply lookup_app_Some in Hb as [Hb | [Hjb Hb]].
    + exact (Hdistinct i j a b Hij Ha Hb).
    + apply list_lookup_singleton_Some in Hb as [_ <-]. simpl.
      destruct (Htracked i a Ha) as (r & d & -> & Hlt & _).
      intros Heq. inversion Heq. unfold n in *. lia.
    + apply list_lookup_singleton_Some in Ha as [_ <-]. simpl.
      destruct (Htracked j b Hb) as (r & d & -> & Hlt & _).
      intros Heq. inversion Heq. unfold n in *. lia.
    + apply list_lookup_singleton_Some in Ha as [Hi0 _].
      apply list_lookup_singleton_Some in Hb as [Hj0 _]. lia.
Qed.

Lemma resume_isolated (st : state) (tasks : list task) (i : nat) :
  isolated (st, tasks) -> isolated (step (st, tasks) (Resume i)).
Proof.
  intros [Htracked Hdistinct]. simpl in Htracked, Hdistinct. simpl.
  destruct (tasks !! i) as [t |] eqn:Hi; [| split; assumption].
  destruct (Htracked i t Hi) as (ref & done & Hctx & Hlt & Hcb & Halone).
  set (s1 := with_store (context t) st).
  assert (Hamb1 : ambient s1 ref) by (split; [exact Hctx | exact Hlt]).
  destruct (segment_in_scope (pending t) s1 ref Hamb1)
    as (done2 & Hpend & [Hs2 Hlt2] & Hfr2 & Halone2).
  unfold resume. fold s1.
  destruct (segment (pending t) s1) as [[os k] s2]. simpl in *.
  assert (Hfr : framed st (with_store (store st) s2) ref) by exact Hfr2.
  assert (Hmine : tracked (with_store (store st) s2)
                    {| callback := callback t;
                       initialStore := initialStore t;
                       context := context t;
                       pending := k;
                       seen := (seen t ++ os)%list |}).
  { exists ref, (done ++ done2)%list. simpl. split; [exact Hctx |].
    split; [exact Hlt2 |]. split.
    - rewrite Hcb, Hpend, app_assoc. reflexivity.
    - rewrite alone_app, Halone. simpl.
      change (deref ref st) with (deref ref s1). rewrite Halone2.
      reflexivity. }
  assert (Hlook : forall j x,
             <[i := {| callback := callback t;
                       initialStore := initialStore t;
                       context := context t;
                       pending := k;
                       seen := (seen t ++ os)%list |}]> tasks !! j = Some x ->
             exists y, tasks !! j = Some y /\ context x = context y /\
                       (j = i -> y = t) /\
                       (j <> i -> x = y)).
  { intros j x Hj. destruct (decide (j = i)) as [-> | Hne].
    - rewrite list_lookup_insert_eq in Hj
        by (apply lookup_lt_Some in Hi; exact Hi).
      inversion Hj; subst. exists t. simpl.
      repeat split; try assumption; intros Hc; contradiction.
    - rewrite list_lookup_insert_ne in Hj by congruence.
      exists x. repeat split; try assumption; intros Hc; contradiction. }
  split; simpl.
  - intros j x Hj. destruct (Hlook j x Hj) as (y & Hy & Hcxy & Heq & Hneq).
    destruct (decide (j = i)) as [-> | Hne].
    + rewrite list_lookup_insert_eq in Hj
        by (apply lookup_lt_Some in Hi; exact Hi).
      inversion Hj; subst. exact Hmine.
    + rewrite (Hneq Hne).
      apply (tracked_framed st _ y ref (Htracked j y Hy)); [| exact Hfr].
      rewrite <- Hctx. apply (Hdistinct j i y t Hne Hy Hi).
  - intros j1 j2 a b Hj Ha Hb.
    destruct (Hlook j1 a Ha) as (a' & Ha' & -> & _).
    destruct (Hlook j2 b Hb) as (b' & Hb' & -> & _).
    exact (Hdistinct j1 j2 a' b' Hj Ha' Hb').
Qed.

Lemma step_isolated (w : world) (ev : event) :
  isolated w -> isolated (step w ev).
Proof.
  destruct w as [st tasks]. destruct ev as [async cb init | i].
  - intros Hw.
    assert (Hsame : step (st, tasks) (Spawn async cb init)
                    = step (st, tasks) (Spawn false cb init))
      by (destruct async; [simpl; rewrite runAsync_is_run |]; reflexivity).
    rewrite Hsame. apply spawn_isolated, Hw.
  - apply resume_isolated.
Qed.

Lemma exec_isolated (evs : list event) (w : world) :
  isolated w -> isolated (exec evs w).
Proof.
  revert w. induction evs as [| ev evs IH]; intros w Hw; [exact Hw |].
  simpl. apply IH, step_isolated, Hw.
Qed.

Lemma isolated_initial : isolated (initial, []).
Proof. split; simpl; intros; discriminate. Qed.

(** On its own, a callback that never sets [key], started without
    [key], never gets anything but [undefined] for it. *)
Lemma alone_never_set (key : string) (acts : list action)
  (m : gmap string value) (v : value) :
  Forall (fun a => sets key a = false) acts ->
  m !! key = None ->
  In (Got key v) (alone acts m).1 -> v = VUndefined.
Proof.
  intros Hacts. revert m.
  induction Hacts as [| a acts Ha _ IH]; intros m Hm; simpl; [tauto |].
  destruct (alone_step a m) as [o m1] eqn:Hstep.
  specialize (IH m1). destruct (alone acts m1) as [os m2]. simpl in *.
  assert (Hm1 : m1 !! key = None).
  { destruct a as [k x | k | k | k | |]; simpl in Hstep, Ha;
      inversion Hstep; subst; try exact Hm.
    - rewrite lookup_insert_ne; [exact Hm |].
      intros ->. rewrite String.eqb_refl in Ha. discriminate.
    - destruct (decide (k = key)) as [-> | Hne].
      + apply lookup_delete_eq.
      + rewrite lookup_delete_ne by exact Hne. exact Hm.
    - apply lookup_empty. }
  destruct o as [o |]; simpl; [| exact (IH Hm1)].
  intros [Ho | Hin]; [| exact (IH Hm1 Hin)].
  subst o.
  destruct a as [k x | k | k | k | |]; simpl in Hstep;
    inversion Hstep; subst.
  rewrite Hm. reflexivity.
Qed.

(** C1. Whatever [run] and [runAsync] invocations the event loop starts
    from start-up and however it interleaves their continuations, two
    distinct callbacks in flight have distinct scopes, and what each of
    them gets from the service is exactly what its own actions yield on a
    private map seeded with its own initial values.  Hence nothing set by
    the sibling is observable: a key the callback neither received nor
    set is [undefined] for it at every [get], whatever the sibling stored
    under that key; and a value the callback set is what its own later
    [get] returns, also across suspensions, until the callback itself
    sets, deletes or clears the key. *)
Theorem concurrent_scopes_do_not_cross_talk (evs : list event) (i j : nat)
  (a b : task) :
  i <> j ->
  (exec evs (initial, [])).2 !! i = Some a ->
  (exec evs (initial, [])).2 !! j = Some b ->
  context a <> context b /\
  forall t, t = a \/ t = b ->
    exists done,
      callback t = (done ++ pending t)%list /\
      seen t = (alone done (seed (initialStore t))).1 /\
      (forall key v,
         seed (initialStore t) !! key = None ->
         Forall (fun x => sets key x = false) (callback t) ->
         In (Got key v) (seen t) -> v = VUndefined) /\
      (forall pre key v mid post,
         done = (pre ++ CallSet key v :: mid ++ CallGet key :: post)%list ->
         Forall (fun x => touches key x = false) mid ->
         exists later,
           seen t
           = ((alone (pre ++ CallSet key v :: mid)
                 (seed (initialStore t))).1 ++ Got key v :: later)%list).
Proof.
  intros Hij Ha Hb.
  destruct (exec_isolated evs (initial, []) isolated_initial)
    as [Htracked Hdistinct].
  split; [exact (Hdistinct i j a b Hij Ha Hb) |].
  intros t Ht.
  assert (Htr : tracked (exec evs (initial, [])).1 t)
    by (destruct Ht as [-> | ->]; eauto).
  destruct Htr as (ref & done & _ & _ & Hcb & Halone).
  exists done. split; [exact Hcb |].
  assert (Hseen : seen t = (alone done (seed (initialStore t))).1)
    by (rewrite Halone; reflexivity).
  split; [exact Hseen |]. split.
  - intros key v Hfresh Hnever. rewrite Hseen.
    apply alone_never_set; [| exact Hfresh].
    rewrite Hcb in Hnever. apply Forall_app in Hnever as [Hdone _].
    exact Hdone.
  - intros pre key v mid post -> Hmid. rewrite Hseen.
    rewrite (alone_reads_own_write pre mid post key v _ Hmid).
    eexists. reflexivity.
Qed.

Lemma delayed_set_is_not_seen_by_sibling :
  (exec delayed_set_and_sibling (initial, [])).2
  = [delayed_setter; sibling_reader] /\
  context delayed_setter <> context sibling_reader /\
  (forall v, In (Got "x" v) (seen sibling_reader) -> v = VUndefined) /\
  exists later, seen delayed_setter = ([] ++ Got "x" (VNum 1) :: later)%list.
Proof.
  assert (Hrun : (exec delayed_set_and_sibling (initial, [])).2
                 = [delayed_setter; sibling_reader])
    by (vm_compute; reflexivity).
  assert (H0 : (exec delayed_set_and_sibling (initial, [])).2 !! 0
               = Some delayed_setter) by (rewrite Hrun; reflexivity).
  assert (H1 : (exec delayed_set_and_sibling (initial, [])).2 !! 1
               = Some sibling_reader) by (rewrite Hrun; reflexivity).
  destruct (concurrent_scopes_do_not_cross_talk delayed_set_and_sibling
              0 1 delayed_setter sibling_reader ltac:(lia) H0 H1)
    as [Hctx Heach].
  split; [exact Hrun |]. split; [exact Hctx |]. split.
  - destruct (Heach sibling_reader (or_intror eq_refl))
      as (done & _ & _ & Hnever & _).
    intros v. apply Hnever; [reflexivity |].
    repeat constructor.
  - destruct (Heach delayed_setter (or_introl eq_refl))
      as (done & Hcb & Hseen & _ & Hown).
    assert (Hdone : done = [Await; CallSet "x" (VNum 1); CallGet "x"])
      by (simpl in Hcb; rewrite app_nil_r in Hcb; symmetry; exact Hcb).
    destruct (Hown [Await] "x" (VNum 1) [] [] Hdone
                (List.Forall_nil _)) as [later Hlater].
    exists later. exact Hlater.
Defined.

(** * Further properties of the code *)

(** ** The store operations in a scope *)

Lemma delete_in_scope (st : state) (ref : nat) (key : string) :
  ambient st ref ->
  exists st',
    delete key st = (Ok (bool_decide (is_Some (deref ref st !! key))), st') /\
    ambient st' ref /\
    deref ref st' = base.delete key (deref ref st).
Proof.
  intros Hamb. pose proof Hamb as [Hs Hlt].
  exists (with_maps (<[ref := base.delete key (deref ref st)]> (maps st)) st).
  split; [call_with Hs |].
  split; [apply ambient_update, Hamb | apply deref_update, Hlt].
Qed.

Lemma clear_in_scope (st : state) (ref : nat) :
  ambient st ref ->
  exists st',
    clear st = (Ok tt, st') /\ ambient st' ref /\ deref ref st' = ∅.
Proof.
  intros Hamb. pose proof Hamb as [Hs Hlt].
  exists (with_maps (<[ref := ∅]> (maps st)) st).
  split; [call_with Hs |].
  split; [apply ambient_update, Hamb | apply deref_update, Hlt].
Qed.

(** X1. In an ambient scope, [set key v] makes [get key] return [v] and
    [has key] return [true], for every value [v], [undefined] included,
    and changes what [get] and [has] return for no other key. *)
Theorem set_then_get_and_has (st : state) (ref : nat) (key : string)
  (v : value) :
  ambient st ref ->
  exists st',
    set key v st = (Ok tt, st') /\ ambient st' ref /\
    get key st' = (Ok v, st') /\ has key st' = (Ok true, st') /\
    forall k, k <> key ->
      (get k st').1 = (get k st).1 /\ (has k st').1 = (has k st).1.
Proof.
  intros Hamb. pose proof Hamb as [Hs _].
  destruct (set_in_scope st ref key v Hamb) as (st' & Hset & Hamb' & Hd).
  pose proof Hamb' as [Hs' _].
  exists st'. split; [exact Hset |]. split; [exact Hamb' |].
  rewrite !(get_in_scope st' ref), !(has_in_scope st' ref) by exact Hs'.
  rewrite Hd, lookup_insert_eq.
  split; [reflexivity |]. split.
  - rewrite bool_decide_eq_true_2 by eauto. reflexivity.
  - intros k Hk.
    rewrite (get_in_scope st' ref), (has_in_scope st' ref) by exact Hs'.
    rewrite (get_in_scope st ref), (has_in_scope st ref) by exact Hs.
    rewrite Hd, lookup_insert_ne by congruence. split; reflexivity.
Qed.

Lemma set_then_get_and_has_on_scope_with_user :
  ambient scope_with_user 0 /\
  exists st',
    set "tenant" VUndefined scope_with_user = (Ok tt, st') /\
    get "tenant" st' = (Ok VUndefined, st') /\
    has "tenant" st' = (Ok true, st') /\
    (get "user" st').1 = Ok (VStr "ann").
Proof.
  assert (Hamb : ambient scope_with_user 0)
    by (split; [reflexivity | simpl; lia]).
  split; [exact Hamb |].
  destruct (set_then_get_and_has scope_with_user 0 "tenant" VUndefined Hamb)
    as (st' & Hset & _ & Hget & Hhas & Hother).
  exists st'. split; [exact Hset |]. split; [exact Hget |].
  split; [exact Hhas |].
  destruct (Hother "user" ltac:(discriminate)) as [-> _]. reflexivity.
Defined.

(** X2. In an ambient scope, [delete key] returns what [has key]
    reported just before; afterwards [has key] is [false] and [get key]
    is [undefined], and no other key is affected.  With no ambient scope
    it returns [false] and changes nothing. *)
Theorem delete_removes_the_key (st : state) (key : string) :
  (store st = None -> delete key st = (Ok false, st)) /\
  (forall ref, ambient st ref ->
     exists b st',
       has key st = (Ok b, st) /\
       delete key st = (Ok b, st') /\ ambient st' ref /\
       has key st' = (Ok false, st') /\
       get key st' = (Ok VUndefined, st') /\
       (delete key st').1 = Ok false /\
       forall k, k <> key ->
         (get k st').1 = (get k st).1 /\ (has k st').1 = (has k st).1).
Proof.
  split; [intros Hnone; call_with Hnone |].
  intros ref Hamb. pose proof Hamb as [Hs _].
  destruct (delete_in_scope st ref key Hamb) as (st' & Hdel & Hamb' & Hd).
  pose proof Hamb' as [Hs' _].
  exists (bool_decide (is_Some (deref ref st !! key))), st'.
  split; [apply has_in_scope, Hs |]. split; [exact Hdel |].
  split; [exact Hamb' |].
  assert (Hgone : deref ref st' !! key = None)
    by (rewrite Hd; apply lookup_delete_eq).
  rewrite !(get_in_scope st' ref), !(has_in_scope st' ref) by exact Hs'.
  rewrite Hgone.
  split; [reflexivity |]. split; [reflexivity |]. split.
  - destruct (delete_in_scope st' ref key Hamb') as (st'' & Hdel' & _).
    rewrite Hgone in Hdel'. rewrite Hdel'. reflexivity.
  - intros k Hk.
    rewrite (get_in_scope st' ref), (has_in_scope st' ref) by exact Hs'.
    rewrite (get_in_scope st ref), (has_in_scope st ref) by exact Hs.
    rewrite Hd, lookup_delete_ne by congruence. split; reflexivity.
Qed.

Lemma delete_removes_the_key_user :
  (store initial = None /\ delete "user" initial = (Ok false, initial)) /\
  (ambient scope_with_user 0 /\
   exists st',
     delete "user" scope_with_user = (Ok true, st') /\
     has "user" st' = (Ok false, st') /\
     get "user" st' = (Ok VUndefined, st') /\
     (delete "user" st').1 = Ok false).
Proof.
  assert (Hamb : ambient scope_with_user 0)
    by (split; [reflexivity | simpl; lia]).
  destruct (delete_removes_the_key initial "user") as [Hout _].
  destruct (delete_removes_the_key scope_with_user "user") as [_ Hin].
  split; [split; [reflexivity | exact (Hout eq_refl)] |].
  split; [exact Hamb |].
  destruct (Hin 0 Hamb) as (b & st' & Hhas & Hdel & _ & Hhas' & Hget & Hdel' & _).
  assert (Hb : b = true).
  { assert (Hcomp : (has "user" scope_with_user).1 = Ok true) by reflexivity.
    rewrite Hhas in Hcomp. simpl in Hcomp. congruence. }
  subst b. exists st'. auto.
Defined.

(** X3. In an ambient scope, [clear] empties the scope, reserved keys
    included: afterwards [has] is [false] and [get] is [undefined] for
    every key, [getRequest] is [undefined] and [getAll] is empty.  With
    no ambient scope it does nothing and does not throw. *)
Theorem clear_empties_the_scope (st : state) :
  (store st = None -> clear st = (Ok tt, st)) /\
  (forall ref, ambient st ref ->
     exists st',
       clear st = (Ok tt, st') /\ ambient st' ref /\
       (forall k, has k st' = (Ok false, st') /\
                  get k st' = (Ok VUndefined, st')) /\
       getRequest st' = (Ok VUndefined, st') /\
       getAll st' = (Ok ∅, st')).
Proof.
  split; [intros Hnone; call_with Hnone |].
  intros ref Hamb.
  destruct (clear_in_scope st ref Hamb) as (st' & Hclear & Hamb' & Hd).
  pose proof Hamb' as [Hs' _].
  exists st'. split; [exact Hclear |]. split; [exact Hamb' |].
  assert (Hkey : forall k, has k st' = (Ok false, st') /\
                           get k st' = (Ok VUndefined, st')).
  { intros k.
    rewrite (get_in_scope st' ref), (has_in_scope st' ref) by exact Hs'.
    rewrite Hd, lookup_empty. split; reflexivity. }
  split; [exact Hkey |]. split; [apply Hkey |].
  rewrite (getAll_in_scope st' ref Hs'), Hd. reflexivity.
Qed.

Lemma clear_empties_scope_opened_by_middleware :
  (store initial = None /\ clear initial = (Ok tt, initial)) /\
  (ambient scope_opened_by_middleware 0 /\
   (getRequest scope_opened_by_middleware).1
   = Ok (VObject [("url", VStr "/")]) /\
   exists st',
     clear scope_opened_by_middleware = (Ok tt, st') /\
     getRequest st' = (Ok VUndefined, st') /\
     getAll st' = (Ok ∅, st')).
Proof.
  assert (Hamb : ambient scope_opened_by_middleware 0)
    by (split; [reflexivity | simpl; lia]).
  destruct (clear_empties_the_scope initial) as [Hout _].
  destruct (clear_empties_the_scope scope_opened_by_middleware) as [_ Hin].
  split; [split; [reflexivity | exact (Hout eq_refl)] |].
  split; [exact Hamb |]. split; [reflexivity |].
  destruct (Hin 0 Hamb) as (st' & Hclear & _ & _ & Hreq & Hall).
  exists st'. auto.
Defined.

(** X4. Whenever [get key] returns something other than [undefined],
    [has key] returns [true]; the converse fails: [has] also returns
    [true] for a key whose stored value is [undefined]. *)
Theorem has_covers_get (st : state) (key : string) :
  (forall v, (get key st).1 = Ok v -> v <> VUndefined ->
             (has key st).1 = Ok true) /\
  (forall ref, store st = Some ref ->
     deref ref st !! key = Some VUndefined ->
     (get key st).1 = Ok VUndefined /\ (has key st).1 = Ok true).
Proof.
  split.
  - intros v Hget Hv. destruct (store st) as [ref |] eqn:Hs.
    + rewrite (get_in_scope st ref key Hs) in Hget.
      rewrite (has_in_scope st ref key Hs). simpl in *.
      destruct (deref ref st !! key) as [x |]; simpl in Hget.
      * rewrite bool_decide_eq_true_2 by eauto. reflexivity.
      * congruence.
    + rewrite (get_no_scope st key Hs) in Hget. simpl in Hget. congruence.
  - intros ref Hs Hkey.
    rewrite (get_in_scope st ref key Hs), (has_in_scope st ref key Hs), Hkey.
    split; reflexivity.
Qed.

Lemma has_covers_get_on_undefined_tenant :
  ((get "user" scope_with_undefined_tenant).1 = Ok (VStr "ann") /\
   (has "user" scope_with_undefined_tenant).1 = Ok true) /\
  (store scope_with_undefined_tenant = Some 0 /\
   (get "tenant" scope_with_undefined_tenant).1 = Ok VUndefined /\
   (has "tenant" scope_with_undefined_tenant).1 = Ok true).
Proof.
  destruct (has_covers_get scope_with_undefined_tenant "user") as [Hdef _].
  destruct (has_covers_get scope_with_undefined_tenant "tenant")
    as [_ Hundef].
  split.
  - split; [reflexivity |].
    apply (Hdef (VStr "ann")); [reflexivity | discriminate].
  - split; [reflexivity |]. apply (Hundef 0); reflexivity.
Defined.

(** ** Scopes opened by [run] *)

Lemma seed_entries (entries : list (string * value)) (key : string) :
  seed (Some entries) !! key = own (rev entries) key.
Proof.
  unfold seed. induction entries as [| [k v] entries IH] using rev_ind.
  - reflexivity.
  - rewrite fold_left_app, rev_app_distr. simpl.
    destruct (String.eqb_spec k key) as [-> | Hne].
    + apply lookup_insert_eq.
    + rewrite lookup_insert_ne by exact Hne. exact IH.
Qed.

Lemma deref_new_Map (st : state) (init : option (list (string * value)))
  (s : option nat) :
  deref (length (maps st))
    (with_store s (with_maps (maps st ++ [seed init]) st))
  = seed init.
Proof. unfold deref. simpl. rewrite list_lookup_middle; reflexivity. Qed.

(** X5. A scope opened by [run] starts from the initial values and from
    nothing else: inside the callback [get key] returns the value the
    last entry for [key] in [initialStore] gives it, and [undefined] when
    there is none or no [initialStore], whatever the scope that was
    ambient when [run] was called holds; when [run] returns, that outer
    scope is ambient again. *)
Theorem run_starts_from_initial_values (st : state)
  (init : option (list (string * value))) (key : string) :
  (run (get key) init st).1
  = Ok (match init with
        | Some entries => default VUndefined (own (rev entries) key)
        | None => VUndefined
        end) /\
  store (run (get key) init st).2 = store st.
Proof.
  unfold run, bind, new_Map, AsyncLocalStorage.run.
  rewrite (get_in_scope _ (length (maps st)) key) by reflexivity.
  simpl. rewrite deref_new_Map. split; [| reflexivity].
  destruct init as [entries |].
  - rewrite seed_entries. reflexivity.
  - reflexivity.
Qed.

(** X6. A callback run in a new scope while another scope is ambient
    reads and writes the new scope only: up to its first suspension it
    observes what its own actions yield on a map seeded with its initial
    values, the scope it suspends in is the new one, and when [run]
    returns the outer scope is ambient again with every entry as it
    was. *)
Theorem run_leaves_outer_scope_untouched (st : state) (ref : nat)
  (acts : list action) (init : option (list (string * value))) :
  ambient st ref ->
  exists done os k st',
    run (start acts) init st = (Ok (os, k, Some (length (maps st))), st') /\
    acts = (done ++ k)%list /\
    os = (alone done (seed init)).1 /\
    ambient st' ref /\
    deref ref st' = deref ref st.
Proof.
  intros [Hs Hlt].
  set (n := length (maps st)).
  set (s1 := with_store (Some n) (with_maps (maps st ++ [seed init]) st)).
  assert (Hamb1 : ambient s1 n).
  { split; [reflexivity |]. simpl. rewrite length_app. simpl. unfold n. lia. }
  destruct (segment_in_scope acts s1 n Hamb1)
    as (done & Hacts & [Hs2 Hlt2] & [Hlen2 Hfr2] & Halone).
  exists done, (segment acts s1).1.1, (segment acts s1).1.2,
    (with_store (store st) (segment acts s1).2).
  split; [| split; [exact Hacts | split; [| split]]].
  - unfold run, bind, new_Map, AsyncLocalStorage.run, start.
    fold n. fold s1. destruct (segment acts s1) as [[os k] s2].
    simpl in *. rewrite Hs2. reflexivity.
  - unfold s1 in Halone. unfold n in Halone. rewrite deref_new_Map in Halone.
    rewrite Halone. reflexivity.
  - split; [exact Hs |]. simpl. rewrite Hlen2. simpl.
    rewrite length_app. simpl. lia.
  - unfold deref. simpl. rewrite Hfr2 by (unfold n; lia). simpl.
    rewrite lookup_app_l by exact Hlt. reflexivity.
Qed.

Lemma run_inside_scope_with_user :
  ambient scope_with_user 0 /\
  exists st',
    run (start [CallGet "user"; CallSet "user" (VStr "bob"); CallGet "user"])
      None scope_with_user
    = (Ok ([Got "user" VUndefined; Got "user" (VStr "bob")], [], Some 1),
       st') /\
    ambient st' 0 /\
    (get "user" st').1 = Ok (VStr "ann").
Proof.
  assert (Hamb : ambient scope_with_user 0)
    by (split; [reflexivity | simpl; lia]).
  split; [exact Hamb |].
  destruct (run_leaves_outer_scope_untouched scope_with_user 0
              [CallGet "user"; CallSet "user" (VStr "bob"); CallGet "user"]
              None Hamb)
    as (done & os & k & st' & Hrun & Hacts & Hos & Hamb' & Hd).
  assert (Hres : (run (start [CallGet "user"; CallSet "user" (VStr "bob");
                              CallGet "user"]) None scope_with_user).1
                 = Ok ([Got "user" VUndefined; Got "user" (VStr "bob")], [],
                       Some 1))
    by (vm_compute; reflexivity).
  rewrite Hrun in Hres. simpl in Hres. inversion Hres; subst.
  exists st'. split; [rewrite Hrun, H0; reflexivity |].
  split; [exact Hamb' |].
  destruct Hamb' as [Hs' _].
  rewrite (get_in_scope st' 0 "user" Hs'), Hd. reflexivity.
Defined.

(** ** Reading along a path *)

Lemma resolve_parts_designated (inherited : value -> string -> value)
  (parts : list string) (current : value) :
  Decorators.resolve_parts inherited parts current
  = Ok (default VUndefined (designated inherited current parts)).
Proof.
  revert current. induction parts as [| part rest IH]; intros current; simpl.
  - reflexivity.
  - destruct (is_null current || is_undefined current) eqn:Hn.
    + rewrite get_prop_nullish by (rewrite orb_comm; exact Hn). reflexivity.
    + destruct (get_prop_defined inherited current part) as [next ->].
      * rewrite orb_comm. exact Hn.
      * apply IH.
Qed.

(** X7. [resolvePath] never throws.  On a truthy object and a path that
    is not empty it returns the value the path designates, read part by
    part, when no part has to be read from [null] or [undefined], and
    [undefined] otherwise; on a falsy object or the empty path it returns
    [undefined]. *)
Theorem resolvePath_designated_or_undefined
  (inherited : value -> string -> value) (obj : value) (path : string) :
  Decorators.resolvePath inherited obj path
  = Ok (if negb (truthy obj) || String.eqb path "" then VUndefined
        else default VUndefined
               (designated inherited obj (split "." path))).
Proof.
  unfold Decorators.resolvePath.
  destruct (negb (truthy obj) || String.eqb path ""); [reflexivity |].
  apply resolve_parts_designated.
Qed.

(** X8. The loop of [getByPath] and [getRequestProperty] and the loop of
    the decorators' [resolvePath], run on the same value and parts,
    return the same value whenever the path designates one; when it does
    not, [resolvePath] returns [undefined] while the service returns the
    [null] or [undefined] it met. *)
Theorem walk_and_resolve_parts (inherited : value -> string -> value)
  (parts : list string) (current : value) :
  exists v w,
    walk inherited parts current = Ok v /\
    Decorators.resolve_parts inherited parts current = Ok w /\
    match designated inherited current parts with
    | Some x => v = x /\ w = x
    | None => nullish v /\ w = VUndefined
    end.
Proof.
  rewrite resolve_parts_designated.
  destruct (designated inherited current parts) as [x |] eqn:Hd.
  - exists x, x. rewrite (walk_designated inherited parts current x Hd). auto.
  - destruct (walk_not_designated inherited parts current Hd)
      as (v & Hv & Hnull).
    exists v, VUndefined. auto.
Qed.

(** ** What the initializers leave behind *)

(** X9. The guard never fulfils its promise with [false], whatever the
    options, the request and the hook do; and the scope it opens is
    ambient inside its own callback only: in the state it leaves to its
    caller the ambient store is the one the caller had. *)
Theorem canActivate_never_denies (inherited : value -> string -> value)
  (options : option RequestContextModuleOptions) (request : value)
  (st : state) :
  (forall b, (canActivate inherited options request st).1 = Fulfilled b ->
             b = true) /\
  store (canActivate inherited options request st).2 = store st.
Proof.
  unfold canActivate, getStore, AsyncLocalStorage.getStore.
  destruct (store st) as [ref |] eqn:Hs.
  - simpl. split; [intros b Hb; congruence | exact Hs].
  - rewrite run_entered.
    destruct (initialize inherited options request (entered st))
      as [[[u | e] |] s'];
      simpl; (split; [intros b Hb; congruence | exact Hs]).
Qed.

Lemma storing_hook_runs (later : bool) (key : string)
  (compute : value -> value) (request : value) (s : state) (ref : nat) :
  ambient s ref ->
  exists s1,
    (match storing_hook later key compute request s with
     | (Ok x, s') => await x s'
     | (Throw e, s') => (Some (Throw e), s')
     end) = (Some (Ok tt), s1) /\
    ambient s1 ref /\
    deref ref s1 = <[key := compute request]> (deref ref s).
Proof.
  intros Hamb.
  destruct (set_in_scope s ref key (compute request) Hamb)
    as (s1 & Hset & Hamb1 & Hd).
  exists s1. split; [| split; assumption].
  unfold storing_hook. destruct later.
  - simpl. rewrite Hset. reflexivity.
  - unfold bind. rewrite Hset. reflexivity.
Qed.

(** X10. What the setup hook stores is what the intercepted handler
    finds: with a hook that sets [key], synchronously or in the promise
    it returns, the interceptor subscribes to the handler inside the new
    scope, in a state where [get key] returns the value the hook stored
    (and [getRequest] the request, when storing it is enabled and the
    hook did not overwrite it); the handler's notifications are
    forwarded as they are, and a handler that throws becomes an error
    notification. *)
Theorem intercept_handler_sees_what_the_hook_stored
  (inherited : value -> string -> value) (adapter_o : option AdapterType)
  (enabled : option bool) (later : bool) (key : string)
  (compute : value -> value) (request : value) (st : state) :
  let options :=
    Some {| adapter := adapter_o; setRequest_opt := enabled;
            setup := Some (storing_hook later key compute) |} in
  exists s1,
    ambient s1 (length (maps st)) /\
    get key s1 = (Ok (compute request), s1) /\
    (setRequest_enabled options = true -> key <> REQUEST ->
     getRequest s1 = (Ok request, s1)) /\
    forall handle,
      intercept inherited options request handle st = forwarded handle st s1.
Proof.
  intros options.
  destruct (hook_state_populated inherited options request st
              (hook_state_of_initialize inherited options request st)
              (or_intror eq_refl)) as (Hamb & Hreq & _).
  destruct (storing_hook_runs later key compute request _ _ Hamb)
    as (s1 & Hrun & Hamb1 & Hd).
  exists s1. pose proof Hamb1 as [Hs1 _]. pose proof Hamb as [Hs0 _].
  split; [exact Hamb1 |]. split; [| split].
  - rewrite (get_in_scope s1 _ key Hs1), Hd, lookup_insert_eq. reflexivity.
  - intros Hon Hkey. specialize (Hreq Hon). unfold getRequest in *.
    rewrite (get_in_scope _ _ REQUEST Hs0) in Hreq.
    rewrite (get_in_scope s1 _ REQUEST Hs1), Hd.
    rewrite lookup_insert_ne by congruence.
    congruence.
  - intros handle. unfold intercept, forwarded. rewrite run_entered.
    rewrite (initialize_reaches_hook inherited options _ request st eq_refl).
    rewrite Hrun. destruct (handle s1) as [[ns | e] s']; reflexivity.
Qed.

Lemma intercept_request_id_scenario :
  (exists st',
     intercept (fun _ _ => VUndefined)
       (Some {| adapter := None; setRequest_opt := None;
                setup := Some (storing_hook false "requestId"
                                 request_id_of) |})
       request_with_id reporting_handler initial
     = (Ok [OnNext (VStr "abc-123"); OnNext request_with_id; OnComplete],
        st')) /\
  (exists st',
     intercept (fun _ _ => VUndefined)
       (Some {| adapter := None; setRequest_opt := None;
                setup := Some (storing_hook true "requestId"
                                 request_id_of) |})
       request_without_id reporting_handler initial
     = (Ok [OnNext (VStr "generated"); OnNext request_without_id;
            OnComplete], st')).
Proof.
  split.
  - destruct (intercept_handler_sees_what_the_hook_stored
                (fun _ _ => VUndefined) None None false "requestId"
                request_id_of request_with_id initial)
      as (s1 & _ & Hget & Hreq & Hrun).
    specialize (Hreq eq_refl ltac:(discriminate)).
    rewrite Hrun. unfold forwarded, reporting_handler, bind.
    rewrite Hget, Hreq. eexists. reflexivity.
  - destruct (intercept_handler_sees_what_the_hook_stored
                (fun _ _ => VUndefined) None None true "requestId"
                request_id_of request_without_id initial)
      as (s1 & _ & Hget & Hreq & Hrun).
    specialize (Hreq eq_refl ltac:(discriminate)).
    rewrite Hrun. unfold forwarded, reporting_handler, bind.
    rewrite Hget, Hreq. eexists. reflexivity.
Defined.

(** ** The middleware with the guard behind it *)

Lemma guarded_in_scope (inherited : value -> string -> value)
  (options : option RequestContextModuleOptions) (request : value)
  (denied : settlement bool -> M unit) (next : option exn -> M unit)
  (err : option exn) (s : state) (ref : nat) :
  store s = Some ref ->
  guarded inherited options request denied next err s = next err s.
Proof.
  intros Hs. unfold guarded. destruct err as [e |]; [reflexivity |].
  unfold canActivate, getStore, AsyncLocalStorage.getStore. rewrite Hs.
  reflexivity.
Qed.

Lemma then_next_guarded (inherited : value -> string -> value)
  (options : option RequestContextModuleOptions) (request : value)
  (denied : settlement bool -> M unit) (next : option exn -> M unit)
  (rest : M unit) (s : state) (ref : nat) :
  store s = Some ref ->
  (forall t, store (rest t).2 = store t) ->
  then_next_catch_next rest (guarded inherited options request denied next) s
  = then_next_catch_next rest next s.
Proof.
  intros Hs Hrest. unfold then_next_catch_next.
  specialize (Hrest s). destruct (rest s) as [[u | e] s']; simpl in Hrest.
  - rewrite (guarded_in_scope inherited options request denied next None
               s' ref) by congruence.
    reflexivity.
  - reflexivity.
Qed.

(** The callback both middlewares pass to [run], after the request was
    stored. *)
Lemma hook_then_next_guarded (inherited : value -> string -> value)
  (options : option RequestContextModuleOptions) (request : value)
  (denied : settlement bool -> M unit) (next : option exn -> M unit)
  (s : state) (ref : nat) :
  (forall f, setup_of options = Some f -> keeps_store f request) ->
  store s = Some ref ->
  (match setup_of options with
   | Some f =>
       let* result := f request in
       match result with
       | Some (Settling rest) =>
           then_next_catch_next rest
             (guarded inherited options request denied next)
       | Some Forever => ret tt
       | None => guarded inherited options request denied next None
       end
   | None => guarded inherited options request denied next None
   end) s
  = (match setup_of options with
     | Some f =>
         let* result := f request in
         match result with
         | Some (Settling rest) => then_next_catch_next rest next
         | Some Forever => ret tt
         | None => next None
         end
     | None => next None
     end) s.
Proof.
  intros Hkeeps Hs. destruct (setup_of options) as [f |].
  - destruct (Hkeeps f eq_refl s) as [Hf Hrest]. unfold bind.
    destruct (f request s) as [[[[rest |] |] | e] s'] eqn:Hcall;
      simpl in Hf; try reflexivity.
    + apply (then_next_guarded inherited options request denied next rest
               s' ref); [congruence |].
      apply Hrest. reflexivity.
    + apply (guarded_in_scope inherited options request denied next None
               s' ref). congruence.
  - apply (guarded_in_scope inherited options request denied next None
             s ref Hs).
Qed.

(** X11. With the default wiring, where the guard runs behind the
    context middleware with the same options, the guard changes nothing:
    for a setup hook that leaves ambient the store it found, both
    middlewares behave with the guard in front of the rest of the
    pipeline exactly as without it, so the hook runs once, in the
    middleware, and the guard goes on to the rest of the pipeline in the
    scope the middleware opened. *)
Theorem guard_behind_middleware_changes_nothing
  (inherited : value -> string -> value)
  (options : option RequestContextModuleOptions) (request : value)
  (denied : settlement bool -> M unit) (next : option exn -> M unit)
  (st : state) :
  (forall f, setup_of options = Some f -> keeps_store f request) ->
  ExpressContextMiddleware.use inherited options request
    (guarded inherited options request denied next) st
  = ExpressContextMiddleware.use inherited options request next st /\
  FastifyContextMiddleware.use inherited options request
    (guarded inherited options request denied next) st
  = FastifyContextMiddleware.use inherited options request next st.
Proof.
  intros Hkeeps. split.
  - unfold ExpressContextMiddleware.use. rewrite !run_entered.
    unfold bind at 1 3.
    destruct (populate_state inherited options request
                (default express (adapter_of options)) (entered st) _
                (ambient_entered st)) as (s1 & -> & [Hs1 _] & _).
    rewrite (hook_then_next_guarded inherited options request denied next
               s1 _ Hkeeps Hs1).
    reflexivity.
  - unfold FastifyContextMiddleware.use. rewrite !run_entered.
    unfold bind at 1 3.
    destruct (populate_state inherited options request
                (default auto (adapter_of options)) (entered st) _
                (ambient_entered st)) as (s1 & -> & [Hs1 _] & _).
    rewrite (hook_then_next_guarded inherited options request denied next
               s1 _ Hkeeps Hs1).
    reflexivity.
Qed.

Lemma set_keeps_store (key : string) (v : value) (s : state) :
  store (set key v s).2 = store s.
Proof. open_call. destruct (store s) eqn:Hs; simpl; congruence. Qed.

Lemma storing_hook_keeps_store (later : bool) (key : string)
  (compute : value -> value) (request : value) :
  keeps_store (storing_hook later key compute) request.
Proof.
  intros s. unfold storing_hook. destruct later; simpl.
  - split; [reflexivity |]. intros rest Hrest t.
    inversion Hrest; subst. apply set_keeps_store.
  - unfold bind.
    pose proof (set_keeps_store key (compute request) s) as Hset.
    destruct (set key (compute request) s) as [[u | e] s']; simpl in *;
      (split; [exact Hset | intros rest Hrest; discriminate Hrest]).
Qed.

Lemma guard_behind_middleware_on_request_with_id :
  (forall f, setup_of (Some options_storing_request_id) = Some f ->
             keeps_store f request_with_id) /\
  ExpressContextMiddleware.use (fun _ _ => VUndefined)
    (Some options_storing_request_id) request_with_id
    (guarded (fun _ _ => VUndefined) (Some options_storing_request_id)
       request_with_id (fun _ => throw (Thrown (VStr "Forbidden")))
       (fun _ => ret tt)) initial
  = ExpressContextMiddleware.use (fun _ _ => VUndefined)
      (Some options_storing_request_id) request_with_id (fun _ => ret tt)
      initial.
Proof.
  assert (Hkeeps : forall f,
             setup_of (Some options_storing_request_id) = Some f ->
             keeps_store f request_with_id).
  { intros f Hf. simpl in Hf. inversion Hf; subst.
    apply storing_hook_keeps_store. }
  split; [exact Hkeeps |].
  destruct (guard_behind_middleware_changes_nothing (fun _ _ => VUndefined)
              (Some options_storing_request_id) request_with_id
              (fun _ => throw (Thrown (VStr "Forbidden")))
              (fun _ => ret tt) initial Hkeeps) as [Hexpress _].
  exact Hexpress.
Defined.

(** ** The two middlewares *)




(** ** The Fastify hook *)

Lemma set_framed (s : state) (ref : nat) (key : string) (v : value) :
  ambient s ref ->
  exists s', set key v s = (Ok tt, s') /\ ambient s' ref /\ framed s s' ref.
Proof.
  intros Hamb. pose proof Hamb as [Hs _].
  exists (with_maps (<[ref := <[key := v]> (deref ref s)]> (maps s)) s).
  split; [call_with Hs |].
  split; [apply ambient_update, Hamb | apply framed_update].
Qed.

Lemma populate_framed (inherited : value -> string -> value)
  (options : option RequestContextModuleOptions) (request : value)
  (adapterType : AdapterType) (s : state) (ref : nat) :
  ambient s ref ->
  framed s
    ((if setRequest_enabled options
      then setRequest inherited request adapterType
      else ret tt) s).2 ref.
Proof.
  intros Hamb. destruct (setRequest_enabled options);
    [| apply framed_refl].
  destruct (set_framed s ref REQUEST request Hamb) as (s1 & H1 & Hamb1 & F1).
  destruct (set_framed s1 ref ADAPTER_TYPE
              (VStr (AdapterType_string adapterType)) Hamb1)
    as (s2 & H2 & Hamb2 & F2).
  destruct (getAdapter_total inherited adapterType request) as [a Ha].
  destruct (set_framed s2 ref ADAPTER (VAdapter a) Hamb2)
    as (s3 & H3 & _ & F3).
  unfold setRequest. unfold bind at 1. rewrite H1.
  unfold bind at 1. rewrite H2.
  unfold bind at 1. unfold lift at 1. rewrite Ha, H3. simpl.
  exact (framed_trans _ _ _ _ (framed_trans _ _ _ _ F1 F2) F3).
Qed.

(** X13. The hook function made by [createFastifyContextHook] has no
    test for an existing scope: called with or without an ambient scope
    it allocates a new store.  Without a setup hook its promise is
    fulfilled, the new store holds the request when storing it is
    enabled, every store allocated before is as it was, and the caller's
    store is ambient again.  With a setup hook that fails with [e] where
    it is called, by throwing or by rejecting, the promise is rejected
    with [e]. *)
Theorem createFastifyContextHook_opens_a_scope_every_time
  (inherited : value -> string -> value)
  (options : option RequestContextModuleOptions) (req : value)
  (st : state) :
  (setup_of options = None ->
   exists st',
     createFastifyContextHook inherited options req st
     = (Fulfilled tt, st') /\
     store st' = store st /\
     length (maps st') = S (length (maps st)) /\
     (forall ref, ref < length (maps st) -> deref ref st' = deref ref st) /\
     (setRequest_enabled options = true ->
      deref (length (maps st)) st' !! REQUEST = Some req)) /\
  (forall f e,
     setup_of options = Some f ->
     throws f req (hook_state_of_fastify_hook inherited options req st) e \/
     rejects f req (hook_state_of_fastify_hook inherited options req st) e ->
     exists st',
       createFastifyContextHook inherited options req st
       = (Rejected e, st')).
Proof.
  pose proof (ambient_entered st) as Hamb.
  pose proof (populate_framed inherited options req
                (default auto (adapter_of options)) (entered st) _ Hamb)
    as [Hlen Hfr].
  destruct (populate_state inherited options req
              (default auto (adapter_of options)) (entered st) _ Hamb)
    as (s1 & Hpop & [Hs1 Hlt1] & Hreq & _).
  rewrite Hpop in Hlen, Hfr. simpl in Hlen, Hfr.
  split.
  - intros Hsetup. exists (with_store (store st) s1).
    split; [| split; [reflexivity | split; [| split]]].
    + unfold createFastifyContextHook. rewrite run_entered.
      unfold bind. rewrite Hpop, Hsetup. reflexivity.
    + simpl. rewrite Hlen, length_app. simpl. lia.
    + intros ref Href. unfold deref. simpl. rewrite Hfr by lia.
      rewrite lookup_app_l by exact Href. reflexivity.
    + intros Hon.
      change (deref (length (maps st)) (with_store (store st) s1))
        with (deref (length (maps st)) s1).
      destruct (setRequest_in_scope inherited (entered st) _ req
                  (default auto (adapter_of options)) Hamb)
        as (s' & a & Hset & _ & _ & Hd).
      rewrite Hon, Hset in Hpop. inversion Hpop; subst s'. rewrite Hd.
      rewrite lookup_insert_ne by discriminate.
      rewrite lookup_insert_ne by discriminate.
      apply lookup_insert_eq.
  - intros f e Hsetup Hfail. unfold throws, rejects in Hfail.
    unfold hook_state_of_fastify_hook in Hfail. rewrite Hpop in Hfail.
    simpl in Hfail.
    unfold createFastifyContextHook. rewrite run_entered.
    unfold bind. rewrite Hpop, Hsetup.
    destruct (f req s1) as [r s2]. simpl in Hfail.
    destruct Hfail as [-> | (rest & -> & Hrest)].
    + eauto.
    + simpl. destruct (rest s2) as [r2 s3]. simpl in Hrest. subst r2. eauto.
Qed.

Lemma createFastifyContextHook_inside_scope_with_user :
  (store scope_with_user = Some 0 /\
   exists st',
     createFastifyContextHook (fun _ _ => VUndefined) None fastify_request
       scope_with_user = (Fulfilled tt, st') /\
     store st' = Some 0 /\
     length (maps st') = 2 /\
     deref 0 st' = deref 0 scope_with_user /\
     deref 1 st' !! REQUEST = Some fastify_request) /\
  (exists st',
     createFastifyContextHook (fun _ _ => VUndefined)
       (Some options_with_hook_throwing_after_set) fastify_request initial
     = (Rejected (Thrown (VStr "setup failed")), st')).
Proof.
  destruct (createFastifyContextHook_opens_a_scope_every_time
              (fun _ _ => VUndefined) None fastify_request scope_with_user)
    as [Hopen _].
  destruct (createFastifyContextHook_opens_a_scope_every_time
              (fun _ _ => VUndefined)
              (Some options_with_hook_throwing_after_set) fastify_request
              initial) as [_ Hfail].
  split.
  - split; [reflexivity |].
    destruct (Hopen eq_refl) as (st' & Hrun & Hs & Hlen & Hold & Hreq).
    exists st'. split; [exact Hrun |]. split; [exact Hs |].
    split; [exact Hlen |]. split; [apply Hold; simpl; lia |].
    exact (Hreq eq_refl).
  - apply (Hfail _ (Thrown (VStr "setup failed")) eq_refl).
    left. vm_compute. reflexivity.
Defined.

(** ** The request accessors of the service *)

Lemma split_without_separator (sep : ascii) (s : string) :
  includes s sep = false -> split sep s = [s].
Proof.
  induction s as [| c rest IH]; simpl; [reflexivity |].
  destruct (Ascii.eqb c sep); simpl; [discriminate |].
  intros Hrest. rewrite (IH Hrest). reflexivity.
Qed.

Lemma truthy_not_nullish (v : value) :
  truthy v = true -> is_undefined v || is_null v = false.
Proof. destruct v; simpl; intros H; try reflexivity; discriminate. Qed.

Lemma accessors_read_store (st : state) (ref : nat) (adapter request : value) :
  store st = Some ref ->
  default VUndefined (deref ref st !! ADAPTER) = adapter ->
  default VUndefined (deref ref st !! REQUEST) = request ->
  RequestContextService.getAdapter st = (Ok adapter, st) /\
  getRequest st = (Ok request, st).
Proof.
  intros Hs Ha Hr.
  unfold RequestContextService.getAdapter, getRequest.
  rewrite !(get_in_scope st ref) by exact Hs. rewrite Ha, Hr. auto.
Qed.

(** X14. With no ambient scope, or in a scope where no request or no
    adapter is stored, [getHeader] and [getRequestProperty] return
    [undefined] and [getHeaders] returns an empty object; none of them
    throws or changes anything. *)
Theorem request_accessors_without_request
  (inherited : value -> string -> value) (toLowerCase : string -> string)
  (st : state) (key : string) :
  store st = None \/
  (exists ref, store st = Some ref /\
               (deref ref st !! REQUEST = None \/
                deref ref st !! ADAPTER = None)) ->
  getHeader inherited toLowerCase key st = (Ok VUndefined, st) /\
  getHeaders inherited st = (Ok (VObject []), st) /\
  getRequestProperty inherited key st = (Ok VUndefined, st).
Proof.
  intros Hcase.
  assert (Hread : exists adapter request,
             RequestContextService.getAdapter st = (Ok adapter, st) /\
             getRequest st = (Ok request, st) /\
             negb (truthy adapter) || negb (truthy request) = true).
  { destruct Hcase as [Hnone | (ref & Hs & Hmissing)].
    - exists VUndefined, VUndefined.
      unfold RequestContextService.getAdapter, getRequest.
      rewrite !get_no_scope by exact Hnone. auto.
    - destruct (accessors_read_store st ref _ _ Hs eq_refl eq_refl)
        as [Ha Hr].
      eexists. eexists. split; [exact Ha |]. split; [exact Hr |].
      destruct Hmissing as [-> | ->]; simpl;
        [apply orb_true_r | reflexivity]. }
  destruct Hread as (adapter & request & Ha & Hr & Hfalsy).
  unfold getHeader, getHeaders, getRequestProperty, bind.
  rewrite Ha, Hr, Hfalsy. auto.
Qed.

Lemma request_accessors_at_start_and_in_scope_with_user :
  (getHeader (fun _ _ => VUndefined) (fun s => s) "accept" initial
   = (Ok VUndefined, initial) /\
   getHeaders (fun _ _ => VUndefined) initial = (Ok (VObject []), initial)) /\
  (getHeader (fun _ _ => VUndefined) (fun s => s) "accept" scope_with_user
   = (Ok VUndefined, scope_with_user) /\
   getRequestProperty (fun _ _ => VUndefined) "user.id" scope_with_user
   = (Ok VUndefined, scope_with_user)).
Proof.
  split.
  - destruct (request_accessors_without_request (fun _ _ => VUndefined)
                (fun s => s) initial "accept" (or_introl eq_refl))
      as (Hh & Hhs & _).
    auto.
  - assert (Hcase : store scope_with_user = None \/
              (exists ref, store scope_with_user = Some ref /\
                 (deref ref scope_with_user !! REQUEST = None \/
                  deref ref scope_with_user !! ADAPTER = None))).
    { right. exists 0. split; [reflexivity |]. left. reflexivity. }
    destruct (request_accessors_without_request (fun _ _ => VUndefined)
                (fun s => s) scope_with_user "accept" Hcase) as (Hh & _ & _).
    destruct (request_accessors_without_request (fun _ _ => VUndefined)
                (fun s => s) scope_with_user "user.id" Hcase)
      as (_ & _ & Hp).
    auto.
Defined.

Lemma get_prop_of_truthy (inherited : value -> string -> value)
  (v : value) (k : string) :
  truthy v = true -> exists x, get_prop inherited v k = Ok x.
Proof.
  destruct v as [| | b | n | s | a | props]; simpl; intros H;
    try discriminate; eauto.
  destruct (own props k); eauto.
Qed.

(** X15. After [setRequest] of a truthy request inside a scope, the
    accessors answer from that request: [getHeaders] returns its
    [headers] property, [getHeader] reads the lower-cased name in it
    (a [TypeError] when [headers] is [undefined] or [null]),
    [getRequestProperty] walks the dot-separated path from the request
    itself and so never throws; none of them changes the scope. *)
Theorem request_accessors_after_setRequest
  (inherited : value -> string -> value) (toLowerCase : string -> string)
  (st : state) (ref : nat) (request : value) (adapterType : AdapterType)
  (key : string) :
  ambient st ref ->
  truthy request = true ->
  exists st' headers,
    setRequest inherited request adapterType st = (Ok tt, st') /\
    get_prop inherited request "headers" = Ok headers /\
    getHeaders inherited st' = (Ok headers, st') /\
    getHeader inherited toLowerCase key st'
    = (get_prop inherited headers (toLowerCase key), st') /\
    getRequestProperty inherited key st'
    = (walk inherited (split "." key) request, st') /\
    (exists v, getRequestProperty inherited key st' = (Ok v, st')).
Proof.
  intros Hamb Htruthy.
  destruct (setRequest_in_scope inherited st ref request adapterType Hamb)
    as (st' & a & Hset & Hamb' & _ & Hd).
  destruct (get_prop_of_truthy inherited request "headers" Htruthy)
    as [headers Hheaders].
  destruct Hamb' as [Hs' _].
  assert (Ha : default VUndefined (deref ref st' !! ADAPTER) = VAdapter a).
  { rewrite Hd, lookup_insert_eq. reflexivity. }
  assert (Hr : default VUndefined (deref ref st' !! REQUEST) = request).
  { rewrite Hd.
    rewrite lookup_insert_ne by (intros Hc; discriminate Hc).
    rewrite lookup_insert_ne by (intros Hc; discriminate Hc).
    rewrite lookup_insert_eq. reflexivity. }
  destruct (accessors_read_store st' ref _ _ Hs' Ha Hr) as [Hga Hgr].
  assert (Hprop : getRequestProperty inherited key st'
                  = (walk inherited (split "." key) request, st')).
  { unfold getRequestProperty, bind. rewrite Hga, Hgr, Htruthy. simpl.
    destruct (includes key ".") eqn:Hinc.
    - destruct (split "." key) as [| first rest] eqn:Hsplit.
      + destruct (split_nonempty "." key Hsplit).
      + unfold lift, AdapterMethods.getProperty. simpl.
        rewrite (truthy_not_nullish request Htruthy).
        destruct (get_prop inherited request first); reflexivity.
    - rewrite (split_without_separator "." key Hinc).
      unfold lift, AdapterMethods.getProperty. simpl.
      rewrite (truthy_not_nullish request Htruthy).
      destruct (get_prop inherited request key); reflexivity. }
  exists st', headers. split; [exact Hset |]. split; [exact Hheaders |].
  split; [| split; [| split; [exact Hprop |]]].
  - unfold getHeaders, bind. rewrite Hga, Hgr, Htruthy. simpl.
    unfold lift, AdapterMethods.getHeaders. rewrite Hheaders. reflexivity.
  - unfold getHeader, bind. rewrite Hga, Hgr, Htruthy. simpl.
    unfold lift, AdapterMethods.getHeader. rewrite Hheaders.
    destruct (get_prop inherited headers (toLowerCase key)); reflexivity.
  - destruct (walk_never_throws inherited (split "." key) request) as [v Hv].
    exists v. rewrite Hprop, Hv. reflexivity.
Qed.

Lemma request_accessors_on_request_with_id :
  exists st',
    setRequest (fun _ _ => VUndefined) request_with_id express scope_with_user
    = (Ok tt, st') /\
    getHeader (fun _ _ => VUndefined) (fun s => s) "x-request-id" st'
    = (Ok (VStr "abc-123"), st') /\
    getRequestProperty (fun _ _ => VUndefined) "headers.x-request-id" st'
    = (Ok (VStr "abc-123"), st').
Proof.
  assert (Hamb : ambient scope_with_user 0).
  { split; [reflexivity | simpl; lia]. }
  destruct (request_accessors_after_setRequest (fun _ _ => VUndefined)
              (fun s => s) scope_with_user 0 request_with_id express
              "x-request-id" Hamb eq_refl)
    as (st1 & headers1 & Hset1 & Hh1 & _ & Hheader & _).
  destruct (request_accessors_after_setRequest (fun _ _ => VUndefined)
              (fun s => s) scope_with_user 0 request_with_id express
              "headers.x-request-id" Hamb eq_refl)
    as (st2 & headers2 & Hset2 & _ & _ & _ & Hprop & _).
  assert (Hsame : st2 = st1) by congruence. subst st2.
  assert (Hheaders : headers1 = VObject [("x-request-id", VStr "abc-123")]).
  { simpl in Hh1. congruence. }
  subst headers1.
  exists st1. split; [exact Hset1 |]. split.
  - rewrite Hheader. reflexivity.
  - rewrite Hprop. reflexivity.
Defined.

(** ** The parameter decorators *)

Lemma getRequest_stored (st : state) (this : nat) :
  instance st = Some this ->
  getRequest st = (Ok (stored_request st), st).
Proof.
  intros Hi. unfold getRequest, stored_request. rewrite Hi.
  destruct (store st) as [ref |] eqn:Hs.
  - apply get_in_scope, Hs.
  - apply get_no_scope, Hs.
Qed.

Lemma hasInstance_true (st : state) (this : nat) :
  instance st = Some this -> hasInstance st = (Ok true, st).
Proof.
  intros Hi. unfold hasInstance.
  rewrite bool_decide_eq_true_2 by (rewrite Hi; eauto). reflexivity.
Qed.

Lemma hasInstance_false (st : state) :
  instance st = None -> hasInstance st = (Ok false, st).
Proof.
  intros Hi. unfold hasInstance.
  rewrite bool_decide_eq_false_2; [reflexivity |].
  rewrite Hi. intros [x Hx]. discriminate Hx.
Qed.

Lemma getInstance_some (st : state) (this : nat) :
  instance st = Some this -> getInstance st = (Ok this, st).
Proof. intros Hi. unfold getInstance. rewrite Hi. reflexivity. Qed.

(** X16. [Req] returns the request stored in the ambient scope when the
    singleton exists and that request is truthy, and the request of the
    execution context in every other case; [RequestKey] resolves its
    path on the same choice of request; [ContextValue] always returns,
    with [undefined] when the singleton does not exist.  None of the
    three throws or changes the state: their [catch] blocks are never
    entered. *)
Theorem decorators_prefer_the_stored_request
  (inherited : value -> string -> value) (st : state)
  (ctx_request : value) (key path : string) :
  ParamDecorators.Req ctx_request st
  = (Ok (chosen_request st ctx_request), st) /\
  ParamDecorators.RequestKey inherited key ctx_request st
  = (Decorators.resolvePath inherited (chosen_request st ctx_request) key,
     st) /\
  (exists v,
     ParamDecorators.ContextValue inherited path st = (Ok v, st) /\
     (instance st = None -> v = VUndefined) /\
     (is_Some (instance st) ->
      getByPath inherited path st = (Ok v, st))).
Proof.
  unfold chosen_request.
  destruct (instance st) as [this |] eqn:Hi.
  - pose proof (getRequest_stored st this Hi) as Hreq.
    pose proof (hasInstance_true st this Hi) as Hhas.
    pose proof (getInstance_some st this Hi) as Hget.
    split; [| split].
    + unfold ParamDecorators.Req, ParamDecorators.try_catch,
        ParamDecorators.Req_from_service, bind.
      rewrite Hhas, Hget, Hreq.
      destruct (truthy (stored_request st)); reflexivity.
    + unfold ParamDecorators.RequestKey, ParamDecorators.try_catch,
        ParamDecorators.RequestKey_from_service, bind.
      rewrite Hhas, Hget, Hreq.
      destruct (truthy (stored_request st)) eqn:Hstored.
      * rewrite Hstored. reflexivity.
      * destruct (truthy ctx_request) eqn:Hctx; [reflexivity |].
        unfold Decorators.resolvePath. rewrite Hctx. reflexivity.
    + destruct (getByPath_never_throws inherited path st) as [v Hv].
      exists v. split; [| split; [intros Hc; discriminate Hc | auto]].
      unfold ParamDecorators.ContextValue, ParamDecorators.try_catch, bind.
      rewrite Hhas, Hget, Hv. reflexivity.
  - pose proof (hasInstance_false st Hi) as Hhas.
    assert (Hstored : stored_request st = VUndefined).
    { unfold stored_request. rewrite Hi. reflexivity. }
    rewrite Hstored. simpl.
    split; [| split].
    + unfold ParamDecorators.Req, ParamDecorators.try_catch,
        ParamDecorators.Req_from_service, bind.
      rewrite Hhas. reflexivity.
    + unfold ParamDecorators.RequestKey, ParamDecorators.try_catch,
        ParamDecorators.RequestKey_from_service, bind.
      rewrite Hhas. simpl.
      destruct (truthy ctx_request) eqn:Hctx; [reflexivity |].
      unfold Decorators.resolvePath. rewrite Hctx. reflexivity.
    + exists VUndefined. split; [| split; [auto |]].
      * unfold ParamDecorators.ContextValue, ParamDecorators.try_catch, bind.
        rewrite Hhas. reflexivity.
      * intros [x Hx]. discriminate Hx.
Qed.

Lemma decorators_after_middleware_and_at_start :
  ParamDecorators.Req (VObject []) scope_opened_by_middleware
  = (Ok (VObject [("url", VStr "/")]), scope_opened_by_middleware) /\
  ParamDecorators.RequestKey (fun _ _ => VUndefined) "url" (VObject [])
    scope_opened_by_middleware
  = (Ok (VStr "/"), scope_opened_by_middleware) /\
  ParamDecorators.Req (VObject [("url", VStr "/other")]) initial
  = (Ok (VObject [("url", VStr "/other")]), initial) /\
  ParamDecorators.ContextValue (fun _ _ => VUndefined) "user.id" initial
  = (Ok VUndefined, initial).
Proof.
  destruct (decorators_prefer_the_stored_request (fun _ _ => VUndefined)
              scope_opened_by_middleware (VObject []) "url" "user.id")
    as (Hreq & Hkey & _).
  destruct (decorators_prefer_the_stored_request (fun _ _ => VUndefined)
              initial (VObject [("url", VStr "/other")]) "url" "user.id")
    as (Hreq0 & _ & v & Hvalue & Hnone & _).
  rewrite (Hnone eq_refl) in Hvalue.
  split; [rewrite Hreq; reflexivity |].
  split; [rewrite Hkey; reflexivity |].
  split; [rewrite Hreq0; reflexivity | exact Hvalue].
Defined.

(** X17. [Headers] asks the service as soon as the singleton exists and
    then never reads the request of the execution context: with no
    ambient scope, or in a scope without a stored request or adapter,
    it returns [undefined] for a named header and an empty object for
    all headers, whatever that request carries.  Only when the singleton
    does not exist does it read [headers] of the execution context's
    request. *)
Theorem Headers_reads_the_context_only_without_singleton
  (inherited : value -> string -> value) (toLowerCase : string -> string)
  (st : state) (headerName : option string) (ctx_request : value) :
  (is_Some (instance st) ->
   store st = None \/
   (exists ref, store st = Some ref /\
                (deref ref st !! REQUEST = None \/
                 deref ref st !! ADAPTER = None)) ->
   ParamDecorators.Headers inherited toLowerCase headerName ctx_request st
   = (Ok (match ParamDecorators.given headerName with
          | Some _ => VUndefined
          | None => VObject []
          end), st)) /\
  (instance st = None ->
   ParamDecorators.Headers inherited toLowerCase headerName ctx_request st
   = (ParamDecorators.Headers_from_context inherited toLowerCase headerName
        ctx_request, st)).
Proof.
  split.
  - intros [this Hi] Hcase.
    pose proof (hasInstance_true st this Hi) as Hhas.
    pose proof (getInstance_some st this Hi) as Hget.
    assert (Hread : exists adapter request,
               RequestContextService.getAdapter st = (Ok adapter, st) /\
               getRequest st = (Ok request, st) /\
               negb (truthy adapter) || negb (truthy request) = true).
    { destruct Hcase as [Hnone | (ref & Hs & Hmissing)].
      - exists VUndefined, VUndefined.
        unfold RequestContextService.getAdapter, getRequest.
        rewrite !get_no_scope by exact Hnone. auto.
      - destruct (accessors_read_store st ref _ _ Hs eq_refl eq_refl)
          as [Ha Hr].
        eexists. eexists. split; [exact Ha |]. split; [exact Hr |].
        destruct Hmissing as [-> | ->]; simpl;
          [apply orb_true_r | reflexivity]. }
    destruct Hread as (adapter & request & Ha & Hr & Hfalsy).
    unfold ParamDecorators.Headers, ParamDecorators.try_catch,
      ParamDecorators.Headers_from_service, bind.
    rewrite Hhas, Hget.
    destruct (ParamDecorators.given headerName) as [name |].
    + unfold getHeader, bind. rewrite Ha, Hr, Hfalsy. reflexivity.
    + unfold getHeaders, bind. rewrite Ha, Hr, Hfalsy. reflexivity.
  - intros Hi.
    unfold ParamDecorators.Headers, ParamDecorators.try_catch,
      ParamDecorators.Headers_from_service, bind.
    rewrite (hasInstance_false st Hi). simpl. unfold lift.
    destruct (ParamDecorators.Headers_from_context inherited toLowerCase
                headerName ctx_request); reflexivity.
Qed.

Lemma Headers_on_request_with_id :
  ParamDecorators.Headers (fun _ _ => VUndefined) (fun s => s)
    (Some "x-request-id") request_with_id (with_instance (Some 0) initial)
  = (Ok VUndefined, with_instance (Some 0) initial) /\
  ParamDecorators.Headers (fun _ _ => VUndefined) (fun s => s)
    (Some "x-request-id") request_with_id initial
  = (Ok (VStr "abc-123"), initial).
Proof.
  destruct (Headers_reads_the_context_only_without_singleton
              (fun _ _ => VUndefined) (fun s => s)
              (with_instance (Some 0) initial) (Some "x-request-id")
              request_with_id) as [Hservice _].
  destruct (Headers_reads_the_context_only_without_singleton
              (fun _ _ => VUndefined) (fun s => s) initial
              (Some "x-request-id") request_with_id) as [_ Hcontext].
  split.
  - rewrite Hservice; [reflexivity | exists 0; reflexivity | left; reflexivity].
  - rewrite (Hcontext eq_refl). reflexivity.
Defined.
